(** * tRPC transport core: HTTP batch link and WebSocket handler

    A shallow embedding of
    - [packages/client/src/links/httpBatchLink.ts] (the batching HTTP link),
    - [packages/client/src/internals/httpRequest.ts] (the request executor),
    - [packages/server/src/ws/wssHandler.ts] (the socket handler),
    and the properties of the transport specification that they decide.

    JavaScript values are an inductive type, thrown exceptions are the
    [Thrown] case of [outcome], promises are the [outcome] they settle
    with, and mutable state (the [isDone] flag, the subscription map, the
    abort controller) is passed explicitly. *)

From Stdlib Require Import QArith Qcanon.
From stdpp Require Import base decidable option list strings numbers pretty.

Local Open Scope string_scope.
Local Open Scope list_scope.
Local Open Scope nat_scope.

(** ** JavaScript values *)

Module Js.

(** A JavaScript number: NaN, an infinity, or a finite value.  Every
    finite double is a rational; negative zero is identified with zero,
    which [typeof], [isNaN], [Map] keys and string conversion all do. *)
Inductive number :=
| NaN
| Infinity (negative : bool)
| Finite (q : Qc).

Global Instance number_eq_dec : EqDecision number.
Proof. solve_decision. Defined.

Definition int (z : Z) : number := Finite (Q2Qc (inject_Z z)).

Definition isNaN (n : number) : bool :=
  match n with NaN => true | _ => false end.

#[local] Set Warnings "-register-all".
Inductive value :=
| VUndefined
| VNull
| VBool (b : bool)
| VNum (n : number)
| VStr (s : string)
| VArr (elements : list value)
| VObj (fields : list (string * value)).

(** Values that can be thrown or can reject a promise. *)
Inductive exn :=
| Error (message : string)
| TRPCAbortError
| ThrownValue (v : value).

(** The result of running code that may throw; also the settlement of a
    promise ([Returned] = fulfilled, [Thrown] = rejected). *)
Inductive outcome (A : Type) :=
| Returned (a : A)
| Thrown (e : exn).
Global Arguments Returned {A} a.
Global Arguments Thrown {A} e.

Global Instance outcome_ret : MRet outcome := fun A a => Returned a.
Global Instance outcome_bind : MBind outcome := fun A B f m =>
  match m with
  | Returned a => f a
  | Thrown e => Thrown e
  end.

Definition typeof (v : value) : string :=
  match v with
  | VUndefined => "undefined"
  | VNull => "object"
  | VBool _ => "boolean"
  | VNum _ => "number"
  | VStr _ => "string"
  | VArr _ => "object"
  | VObj _ => "object"
  end.

Definition Array_isArray (v : value) : bool :=
  match v with VArr _ => true | _ => false end.

(** [!v] *)
Definition falsy (v : value) : bool :=
  match v with
  | VUndefined | VNull | VBool false | VNum NaN | VStr EmptyString => true
  | VNum (Finite q) => bool_decide (q = Q2Qc 0)
  | _ => false
  end.

Definition is_undefined (v : value) : bool :=
  match v with VUndefined => true | _ => false end.

(** Lookup in a list of entries kept in insertion order: the own properties
    of an object, or the entries of a [Map]. *)
Fixpoint lookup_key {K A} `{EqDecision K} (k : K) (entries : list (K * A))
  : option A :=
  match entries with
  | [] => None
  | (k', v) :: rest => if decide (k = k') then Some v else lookup_key k rest
  end.

(** [obj[k] = v] and [map.set(k, v)]: overwrite in place, or append. *)
Fixpoint set_key {K A} `{EqDecision K} (k : K) (v : A) (entries : list (K * A))
  : list (K * A) :=
  match entries with
  | [] => [(k, v)]
  | (k', v') :: rest =>
      if decide (k = k') then (k, v) :: rest else (k', v') :: set_key k v rest
  end.

(** [map.delete(k)] *)
Fixpoint delete_key {K A} `{EqDecision K} (k : K) (entries : list (K * A))
  : list (K * A) :=
  match entries with
  | [] => []
  | (k', v') :: rest =>
      if decide (k = k') then delete_key k rest else (k', v') :: delete_key k rest
  end.

(** [v === s] for a string [s] *)
Definition is_string (v : value) (s : string) : bool :=
  match v with VStr s' => bool_decide (s' = s) | _ => false end.

(** [v.k] for the property names this code reads ([id], [method],
    [params], [input], [path]), none of which is inherited. *)
Definition get_prop (v : value) (k : string) : value :=
  match v with
  | VObj fields => default VUndefined (lookup_key k fields)
  | _ => VUndefined
  end.

End Js.
Import Js.

Inductive ProcedureType := query | mutation | subscription.

Global Instance ProcedureType_eq_dec : EqDecision ProcedureType.
Proof. solve_decision. Defined.

(** ** [httpRequest.ts] *)

Module HttpRequest.

(** [type] and [method] of a request: ['query' | 'mutation']. *)
Inductive HttpType := Hquery | Hmutation.

Global Instance HttpType_eq_dec : EqDecision HttpType.
Proof. solve_decision. Defined.

(** The string a type prints as in a template literal. *)
Definition type_name (t : HttpType) : string :=
  match t with Hquery => "query" | Hmutation => "mutation" end.

(** A raw header value: [string | string[] | undefined]. *)
Inductive HeaderValue :=
| HUndefined
| HString (s : string)
| HArray (l : list string).

Record RequestInit := {
  init_method : string;
  (** [ac?.signal]: [None] is [undefined]; [Some b] is a signal whose
      [aborted] flag is [b] when the fetch looks at it. *)
  init_signal : option bool;
  init_body : option string;
  init_headers : list (string * string);
}.

Record Response := { res_json : outcome value }.

Record LinkRuntimeOptions := {
  (** Whether an [AbortController] constructor is injected. *)
  rt_AbortController : bool;
  rt_serialize : value → value;
  (** What [rt.headers()] yields once awaited. *)
  rt_headers : outcome (list (string * HeaderValue));
  rt_fetch : string → RequestInit → outcome Response;
}.

(** [{ inputs: unknown[] } | { input: unknown }] *)
Inductive Payload :=
| Input (input : value)
| Inputs (inputs : list value).

Record Props := {
  runtime : LinkRuntimeOptions;
  type : HttpType;
  method : HttpType;
  path : string;
  url : string;
  payload : Payload;
}.

(** The [for] loop of [arrayToDict], from [index] on. *)
Fixpoint arrayToDict_from (index : nat) (array : list value)
  : list (string * value) :=
  match array with
  | [] => []
  | element :: rest => (pretty index, element) :: arrayToDict_from (S index) rest
  end.

Definition arrayToDict (array : list value) : value :=
  VObj (arrayToDict_from 0 array).

(** [const input = 'input' in props ? ... : arrayToDict(...)] *)
Definition input_of (props : Props) : value :=
  match payload props with
  | Input input => rt_serialize (runtime props) input
  | Inputs inputs => arrayToDict (map (rt_serialize (runtime props)) inputs)
  end.

Definition httpMethods (m : HttpType) : string :=
  match m with Hquery => "GET" | Hmutation => "POST" end.

(** [const ac = rt.AbortController ? new rt.AbortController() : null]:
    the controller is represented by its signal's [aborted] flag. *)
Definition new_ac (rt : LinkRuntimeOptions) : option bool :=
  if rt_AbortController rt then Some false else None.

(** [ac?.abort()] *)
Definition cancel (ac : option bool) : option bool :=
  match ac with
  | Some _ => Some true
  | None => None
  end.

Section Builtins.

(** [JSON.stringify] and [encodeURIComponent] of the JavaScript runtime. *)
Variable JSON_stringify : value → string.
Variable encodeURIComponent : string → string.

Definition queryParts (props : Props) : list string :=
  let parts : list string := [] in
  let parts :=
    if negb (bool_decide (type props = method props))
    then parts ++ ["type=" +:+ type_name (type props)] else parts in
  let parts :=
    match payload props with
    | Inputs _ => parts ++ ["batch=1"]
    | Input _ => parts
    end in
  let parts :=
    if bool_decide (method props = Hquery) && negb (is_undefined (input_of props))
    then parts ++ ["input=" +:+ encodeURIComponent (JSON_stringify (input_of props))]
    else parts in
  parts.

Definition getUrl (props : Props) : string :=
  let url := url props +:+ "/" +:+ path props in
  match queryParts props with
  | [] => url
  | parts => url +:+ "?" +:+ String.concat "&" parts
  end.

Definition getBody (props : Props) : option string :=
  match method props with
  | Hquery => None
  | Hmutation =>
      if is_undefined (input_of props) then None
      else Some (JSON_stringify (input_of props))
  end.

(** [headers[key] = v] on the object literal [headers], for a string
    [v]: an own property is written, except under the key [__proto__],
    which is the accessor inherited from [Object.prototype]; its setter
    ignores a value that is not an object, so nothing is stored. *)
Definition assign_header (key v : string) (headers : list (string * string))
  : list (string * string) :=
  if decide (key = "__proto__") then headers else set_key key v headers.

(** The [for (const key in rawHeaders)] loop. *)
Fixpoint merge_headers (rawHeaders : list (string * HeaderValue))
  (headers : list (string * string)) : list (string * string) :=
  match rawHeaders with
  | [] => headers
  | (key, header) :: rest =>
      merge_headers rest
        match header with
        | HUndefined => headers
        | HArray l => assign_header key (String.concat "," l) headers
        | HString s => assign_header key s headers
        end
  end.

Definition fetch_init (props : Props) (ac : option bool)
  (rawHeaders : list (string * HeaderValue)) : RequestInit :=
  {| init_method := httpMethods (method props);
     init_signal := ac;
     init_body := getBody props;
     init_headers :=
       merge_headers rawHeaders [("content-type", "application/json")] |}.

(** What [promise] settles with, when the controller is in state [ac]
    while the request is in flight. *)
Definition promise (props : Props) (ac : option bool) : outcome value :=
  let url := getUrl props in
  rawHeaders ← rt_headers (runtime props);
  res ← rt_fetch (runtime props) url (fetch_init props ac rawHeaders);
  json ← res_json res;
  mret json.

End Builtins.

(** How many inputs a request carries. *)
Definition input_count (props : Props) : nat :=
  match payload props with
  | Input _ => 1
  | Inputs inputs => length inputs
  end.

End HttpRequest.

(** ** [httpBatchLink.ts] *)

Module HttpBatchLink.
Import HttpRequest.

(** The operation a link receives; [op_method] is optional. *)
Record Operation := {
  op_id : number;
  op_type : ProcedureType;
  op_method : option ProcedureType;
  op_path : string;
  op_input : value;
}.

(** What [prev] is called with: the transformed response, or
    [TRPCClientError.from(cause, opts)]. *)
Inductive OperationResult :=
| FromResponse (result : value)
| ClientError (cause : exn) (isDone : option bool).

(** The four loaders, each named by the [type] and [method] its fetcher
    was built with; any other index is [undefined]. *)
Definition loaders (type method : ProcedureType) : option (HttpType * HttpType) :=
  match type, method with
  | query, query => Some (Hquery, Hquery)
  | query, mutation => Some (Hquery, Hmutation)
  | mutation, query => Some (Hmutation, Hquery)
  | mutation, mutation => Some (Hmutation, Hmutation)
  | _, _ => None
  end.

(** State of one call of the link: the [isDone] flag of its closure, and
    what it has done so far. *)
Record LinkState := {
  (** the loader [load] was called on, and the key given to it *)
  loaded : (HttpType * HttpType) * Operation;
  isDone : bool;
  (** every call of [prev], oldest first *)
  delivered : list OperationResult;
  (** how many times the loader's [cancel] was called *)
  cancelled : nat;
  (** exceptions that left a callback uncaught *)
  uncaught : list exn;
}.

Inductive Event :=
| Destroy                       (* the hook given to [onDestroy] runs *)
| Settle (o : outcome value).   (* the loader's promise settles *)

(** [prev] has been called exactly when [isDone] is set, and then once. *)
Definition called_once_done (st : LinkState) : Prop :=
  (isDone st = false ∧ delivered st = [])
  ∨ (isDone st = true ∧ ∃ result, delivered st = [result]).

Definition unsupported : string :=
  "Subscriptions are not supported over HTTP, please add a Websocket link".

(** The body of the link up to [loader.load(op)]. *)
Definition link (op : Operation) : outcome LinkState :=
  if bool_decide (op_type op = subscription)
     || bool_decide (op_method op = Some subscription)
  then Thrown (Error unsupported)
  else
    match loaders (op_type op) (default (op_type op) (op_method op)) with
    | Some loader =>
        Returned {| loaded := (loader, op); isDone := false; delivered := [];
                    cancelled := 0; uncaught := [] |}
    | None => Thrown (Error "Cannot read properties of undefined")
    end.

(** The [load] calls a run of the link made. *)
Definition loads (r : outcome LinkState) : list ((HttpType * HttpType) * Operation) :=
  match r with
  | Returned st => [loaded st]
  | Thrown _ => []
  end.

Section Link.

(** [transformRPCResponse({ envelope, runtime })] *)
Variable transformRPCResponse : value → outcome OperationResult.
(** The downstream callback: [Some e] when [prev(result)] throws [e]. *)
Variable prev : OperationResult → option exn.

Definition prevOnce (result : OperationResult) (st : LinkState)
  : LinkState * option exn :=
  if isDone st then (st, None)
  else
    ({| loaded := loaded st; isDone := true;
        delivered := delivered st ++ [result];
        cancelled := cancelled st; uncaught := uncaught st |},
     prev result).

Definition escape (e : exn) (st : LinkState) : LinkState :=
  {| loaded := loaded st; isDone := isDone st; delivered := delivered st;
     cancelled := cancelled st; uncaught := uncaught st ++ [e] |}.

(** [.catch((cause) => prevOnce(TRPCClientError.from(cause)))] *)
Definition on_catch (cause : exn) (st : LinkState) : LinkState :=
  match prevOnce (ClientError cause None) st with
  | (st', None) => st'
  | (st', Some e) => escape e st'
  end.

(** [.then((envelope) => prevOnce(transformRPCResponse(...)))]; what it
    throws goes to the [catch] chained after it. *)
Definition on_then (envelope : value) (st : LinkState) : LinkState :=
  match transformRPCResponse envelope with
  | Thrown e => on_catch e st
  | Returned result =>
      match prevOnce result st with
      | (st', None) => st'
      | (st', Some e) => on_catch e st'
      end
  end.

(** [() => { prevOnce(TRPCClientError.from(new TRPCAbortError(),
    { isDone: true })); cancel(); }] *)
Definition on_destroy (st : LinkState) : LinkState :=
  match prevOnce (ClientError TRPCAbortError (Some true)) st with
  | (st', Some e) => escape e st'
  | (st', None) =>
      {| loaded := loaded st'; isDone := isDone st'; delivered := delivered st';
         cancelled := S (cancelled st'); uncaught := uncaught st' |}
  end.

Definition step (st : LinkState) (ev : Event) : LinkState :=
  match ev with
  | Destroy => on_destroy st
  | Settle (Returned envelope) => on_then envelope st
  | Settle (Thrown cause) => on_catch cause st
  end.

Definition run (st : LinkState) (events : list Event) : LinkState :=
  foldl step st events.

(** What an event hands to [prevOnce] first. *)
Definition first_result (ev : Event) : OperationResult :=
  match ev with
  | Destroy => ClientError TRPCAbortError (Some true)
  | Settle (Thrown cause) => ClientError cause None
  | Settle (Returned envelope) =>
      match transformRPCResponse envelope with
      | Returned result => result
      | Thrown e => ClientError e None
      end
  end.

End Link.

(** How often the teardown hook runs in a sequence of events. *)
Fixpoint teardowns (events : list Event) : nat :=
  match events with
  | [] => 0
  | Destroy :: events => S (teardowns events)
  | Settle _ :: events => teardowns events
  end.

Section Fetcher.

Variable JSON_stringify : value → string.
Variable encodeURIComponent : string → string.
(** [opts.url] and the [runtime] the link was initialised with. *)
Variable url : string.
Variable runtime : LinkRuntimeOptions.

(** The argument of [httpRequest] in [fetcher]. *)
Definition fetcher_props (type method : HttpType)
  (keyInputPairs : list Operation) : Props :=
  {| HttpRequest.runtime := runtime;
     HttpRequest.type := type;
     HttpRequest.method := method;
     HttpRequest.path := String.concat "," (map op_path keyInputPairs);
     HttpRequest.url := url;
     HttpRequest.payload := Inputs (map op_input keyInputPairs) |}.

(** The callback of [promise.then] in [fetcher]. *)
Definition fetcher_then (keyInputPairs : list Operation) (res : value) : value :=
  if negb (Array_isArray res)
  then VArr (map (fun _ => res) keyInputPairs)
  else res.

(** What the promise returned by [fetcher(type, method)(keyInputPairs)]
    settles with. *)
Definition fetcher (type method : HttpType) (keyInputPairs : list Operation)
  (ac : option bool) : outcome value :=
  res ← promise JSON_stringify encodeURIComponent
          (fetcher_props type method keyInputPairs) ac;
  mret (fetcher_then keyInputPairs res).

(** Modelled from the spec: the Batch Coalescer ([internals/dataLoader.ts],
    which is not among the sources).  It hands the ordered window to the
    fetcher as one call; element [i] of the combined response maps to window
    entry [i], and if the combined call fails every member of the window
    rejects with that same cause.  [None]: entry [i] does not exist, or the
    response has no element for it. *)
Definition window_entry (window : list Operation) (combined : outcome value)
  (i : nat) : option (outcome value) :=
  if decide (i < length window) then
    match combined with
    | Thrown cause => Some (Thrown cause)
    | Returned (VArr elements) => Returned <$> elements !! i
    | Returned _ => None
    end
  else None.

(** The settlement of the promise [load] gave to entry [i] of a window. *)
Definition load_result (type method : HttpType) (window : list Operation)
  (ac : option bool) (i : nat) : option (outcome value) :=
  window_entry window (fetcher type method window ac) i.

End Fetcher.

End HttpBatchLink.

(** ** [wssHandler.ts] *)

Module WssHandler.

(** What [parseMessage] returns: [{ type: 'stop', id }] or
    [{ type: method, id, input, path }]. *)
Inductive Info :=
| StopInfo (id : number)
| CallInfo (type : ProcedureType) (id : number) (input : value) (path : string).

Definition assertIsObject (obj : value) : outcome value :=
  if negb (bool_decide (typeof obj = "object")) || Array_isArray obj || falsy obj
  then Thrown (Error "Not an object")
  else Returned obj.

Definition assertIsProcedureType (obj : value) : outcome ProcedureType :=
  if is_string obj "query" then Returned query
  else if is_string obj "subscription" then Returned subscription
  else if is_string obj "mutation" then Returned mutation
  else Thrown (Error "Invalid procedure type").

(** [typeof obj !== 'number' || isNaN(obj)] *)
Definition assertIsRequestId (obj : value) : outcome number :=
  match obj with
  | VNum n => if isNaN n then Thrown (Error "Invalid requestId") else Returned n
  | _ => Thrown (Error "Invalid requestId")
  end.

Definition assertIsString (obj : value) : outcome string :=
  match obj with
  | VStr s => Returned s
  | _ => Thrown (Error "Invalid string")
  end.

(** A [Subscription] object, by identity. *)
Definition Sub := nat.

(** The arguments of one [callProcedure]. *)
Record Call := {
  call_id : number;
  call_type : ProcedureType;
  call_path : string;
  call_input : value;
}.

(** What an awaited procedure call resolves to. *)
Inductive Resolved :=
| Plain (result : value)
| Subscription (sub : Sub).      (* [result instanceof Subscription] *)

(** A message handler suspended at an [await]. *)
Inductive Await :=
| AwaitProcedure (c : Call)             (* [await callProcedure(...)] *)
| AwaitStart (c : Call) (sub : Sub).    (* [await sub.start()] *)

(** Calls the handler makes on its collaborators, in order. *)
Inductive Effect :=
| Sent (data : string)              (* [client.send(data)] *)
| Called (c : Call)                 (* [caller.query / mutation / subscription] *)
| Destroyed (sub : Sub)             (* [sub.destroy()] *)
| Started (sub : Sub)               (* [sub.start()] *)
| Rejected (e : exn).               (* the handler's promise rejects *)

Inductive ReadyState := CONNECTING | OPEN | CLOSING | CLOSED.

Global Instance ReadyState_eq_dec : EqDecision ReadyState.
Proof. solve_decision. Defined.

(** One connection: the closure of the ['connection'] callback and the
    socket it was given. *)
Record Conn := {
  (** the [Map], in insertion order *)
  clientSubscriptions : list (number * Sub);
  (** how many ['close'] listeners are registered on [client] *)
  closeListeners : nat;
  readyState : ReadyState;
  (** the ['data'] and ['error'] listeners put on subscriptions *)
  listeners : list (Sub * Call);
  suspended : list Await;
  effects : list Effect;
}.

Definition with_subscriptions (m : list (number * Sub)) (st : Conn) : Conn :=
  {| clientSubscriptions := m; closeListeners := closeListeners st;
     readyState := readyState st; listeners := listeners st;
     suspended := suspended st; effects := effects st |}.

Definition with_readyState (r : ReadyState) (st : Conn) : Conn :=
  {| clientSubscriptions := clientSubscriptions st;
     closeListeners := closeListeners st;
     readyState := r; listeners := listeners st;
     suspended := suspended st; effects := effects st |}.

Definition with_suspended (l : list Await) (st : Conn) : Conn :=
  {| clientSubscriptions := clientSubscriptions st;
     closeListeners := closeListeners st;
     readyState := readyState st; listeners := listeners st;
     suspended := l; effects := effects st |}.

Definition add_close_listener (st : Conn) : Conn :=
  {| clientSubscriptions := clientSubscriptions st;
     closeListeners := S (closeListeners st);
     readyState := readyState st; listeners := listeners st;
     suspended := suspended st; effects := effects st |}.

Definition add_listener (sub : Sub) (c : Call) (st : Conn) : Conn :=
  {| clientSubscriptions := clientSubscriptions st;
     closeListeners := closeListeners st;
     readyState := readyState st; listeners := listeners st ++ [(sub, c)];
     suspended := suspended st; effects := effects st |}.

Definition emit (e : Effect) (st : Conn) : Conn :=
  {| clientSubscriptions := clientSubscriptions st;
     closeListeners := closeListeners st;
     readyState := readyState st; listeners := listeners st;
     suspended := suspended st; effects := effects st ++ [e] |}.

Definition await (a : Await) (st : Conn) : Conn :=
  with_suspended (suspended st ++ [a]) st.

(** The connection once [createContext] has resolved and the ['message']
    listener is in place. *)
Definition connected : Conn :=
  {| clientSubscriptions := []; closeListeners := 0; readyState := OPEN;
     listeners := []; suspended := []; effects := [] |}.

(** A connection with an entry or a suspended handler has a close
    listener: both come from a message, and every message registers one. *)
Definition close_ready (st : Conn) : Prop :=
  (clientSubscriptions st = [] ∧ suspended st = []) ∨ 0 < closeListeners st.

(** Once the socket is closed the map is empty. *)
Definition closed_empty (st : Conn) : Prop :=
  readyState st = CLOSED → clientSubscriptions st = [].

(** Two connections that differ at most in how many close listeners are
    registered. *)
Definition same_but_listeners (st st' : Conn) : Prop :=
  clientSubscriptions st = clientSubscriptions st'
  ∧ readyState st = readyState st'
  ∧ listeners st = listeners st'
  ∧ suspended st = suspended st'
  ∧ effects st = effects st'.

(** The fields other than the effects and the subscription listeners. *)
Definition core (st : Conn)
  : list (number * Sub) * nat * ReadyState * list Await :=
  (clientSubscriptions st, closeListeners st, readyState st, suspended st).

Inductive Event :=
| Message (message : value)                 (* a ['message'] event *)
| Settled (k : nat) (o : outcome Resolved)  (* the [k]-th suspended await settles *)
| SubData (sub : Sub) (data : value)        (* [sub] emits ['data'] *)
| SubError (sub : Sub) (error : exn)        (* [sub] emits ['error'] *)
| Closing                                   (* the closing handshake starts *)
| Close.                                    (* the ['close'] event *)

Section Handler.

(** [JSON.parse], [JSON.stringify] and the string a number prints as in a
    template literal. *)
Variable JSON_parse : string → outcome value.
Variable JSON_stringify : value → string.
Variable Number_toString : number → string.
(** [transformer.input.deserialize] and [transformer.output.serialize]. *)
Variable input_deserialize : value → outcome value.
Variable output_serialize : value → value.
(** [router.getErrorShape({ error, type, path, input, ctx })] with the
    connection's [ctx], and [getErrorFromUnknown]. *)
Variable getErrorShape : exn → string → option string → value → value.
Variable getErrorFromUnknown : exn → exn.

(** The string a procedure type is on the wire. *)
Definition procedure_name (t : ProcedureType) : string :=
  match t with
  | query => "query"
  | mutation => "mutation"
  | subscription => "subscription"
  end.

(** The messages the specification has the parser accept: a string whose
    JSON decoding is an object that is not an array, with a numeric [id]
    that is not NaN, and either the method [stop], or one of the three
    procedure types as method together with [params], an object with a
    string [path]. *)
Definition valid_message (message : value) : Prop :=
  ∃ s obj id,
    message = VStr s
    ∧ JSON_parse s = Returned (VObj obj)
    ∧ lookup_key "id" obj = Some (VNum id) ∧ id ≠ NaN
    ∧ (lookup_key "method" obj = Some (VStr "stop")
       ∨ ∃ type params path,
           lookup_key "method" obj = Some (VStr (procedure_name type))
           ∧ lookup_key "params" obj = Some (VObj params)
           ∧ lookup_key "path" params = Some (VStr path)).

Definition parseMessage (message : value) : outcome Info :=
  message ← assertIsString message;
  obj ← JSON_parse message;
  obj ← assertIsObject obj;
  let method := get_prop obj "method" in
  let params := get_prop obj "params" in
  let id := get_prop obj "id" in
  id ← assertIsRequestId id;
  if is_string method "stop" then Returned (StopInfo id)
  else
    method ← assertIsProcedureType method;
    params ← assertIsObject params;
    let input := get_prop params "input" in
    let path := get_prop params "path" in
    path ← assertIsString path;
    Returned (CallInfo method id input path).

Definition response (id : number) (json : value) : value :=
  VObj [("jsonrpc", VStr "2.0"); ("result", output_serialize json);
        ("id", VNum id)].

Definition respond (id : number) (json : value) (st : Conn) : Conn :=
  emit (Sent (JSON_stringify (response id json))) st.

Definition ok_envelope (data : value) : value :=
  VObj [("ok", VBool true); ("data", data)].

Definition error_envelope (error : value) : value :=
  VObj [("ok", VBool false); ("error", error)].

(** The [catch (error)] block of the message handler. *)
Definition on_catch (id : number) (error : exn) (st : Conn) : Conn :=
  respond id (error_envelope (getErrorShape error "unknown" None VUndefined)) st.

(** The ['close'] listener. *)
Definition close_listener (st : Conn) : Conn :=
  with_subscriptions []
    (foldl (fun st sub => emit (Destroyed sub) st) st
       (map snd (clientSubscriptions st))).

(** [info.input], which a stop request does not have. *)
Definition info_input (info : Info) : value :=
  match info with
  | StopInfo _ => VUndefined
  | CallInfo _ _ input _ => input
  end.

(** The message handler, up to its first [await]. *)
Definition on_message (message : value) (st : Conn) : Conn :=
  let st := add_close_listener st in
  match
    info ← parseMessage message;
    input ← (if negb (is_undefined (info_input info))
             then input_deserialize (info_input info)
             else Returned VUndefined);
    Returned (info, input)
  with
  | Thrown e => emit (Rejected e) st
  | Returned (StopInfo id, _) =>
      let st :=
        match lookup_key id (clientSubscriptions st) with
        | Some sub => emit (Destroyed sub) st
        | None => st
        end in
      with_subscriptions (delete_key id (clientSubscriptions st)) st
  | Returned (CallInfo type id _ path, input) =>
      let c := {| call_id := id; call_type := type; call_path := path;
                  call_input := input |} in
      await (AwaitProcedure c) (emit (Called c) st)
  end.

(** The handler from [await callProcedure(...)] to its next [await]. *)
Definition on_procedure (c : Call) (o : outcome Resolved) (st : Conn) : Conn :=
  let id := call_id c in
  match o with
  | Thrown error => on_catch id error st
  | Returned (Subscription sub) =>
      if negb (bool_decide (readyState st = OPEN)) then emit (Destroyed sub) st
      else if bool_decide (is_Some (lookup_key id (clientSubscriptions st))) then
        on_catch id (Error ("Duplicate id " +:+ Number_toString id))
          (emit (Destroyed sub) st)
      else
        let st := with_subscriptions (set_key id sub (clientSubscriptions st)) st in
        let st := add_listener sub c st in
        await (AwaitStart c sub) (emit (Started sub) st)
  | Returned (Plain result) => respond id (ok_envelope result) st
  end.

(** The handler after [await sub.start()]. *)
Definition on_started (c : Call) (o : outcome Resolved) (st : Conn) : Conn :=
  match o with
  | Thrown error => on_catch (call_id c) error st
  | Returned _ => st
  end.

(** The ['data'] listener of the subscription registered for call [c]. *)
Definition on_data (c : Call) (data : value) (st : Conn) : Conn :=
  respond (call_id c) (ok_envelope data) st.

(** The ['error'] listener of the subscription registered for call [c]. *)
Definition on_error (c : Call) (error : exn) (st : Conn) : Conn :=
  respond (call_id c)
    (error_envelope
       (getErrorShape (getErrorFromUnknown error) "subscription"
          (Some (call_path c)) (call_input c))) st.

(** Run [f] for every listener registered on [sub], oldest first. *)
Definition notify (sub : Sub) (f : Call → Conn → Conn) (st : Conn) : Conn :=
  foldl (fun st l => if decide (fst l = sub) then f (snd l) st else st)
    st (listeners st).

(** The ['close'] event: the socket is closed, and every ['close'] listener
    runs. *)
Definition on_close (st : Conn) : Conn :=
  Nat.iter (closeListeners st) close_listener (with_readyState CLOSED st).

Definition step (st : Conn) (ev : Event) : Conn :=
  match ev with
  | Message message => on_message message st
  | Settled k o =>
      match suspended st !! k with
      | Some (AwaitProcedure c) =>
          on_procedure c o (with_suspended (delete k (suspended st)) st)
      | Some (AwaitStart c _) =>
          on_started c o (with_suspended (delete k (suspended st)) st)
      | None => st
      end
  | SubData sub data => notify sub (fun c => on_data c data) st
  | SubError sub error => notify sub (fun c => on_error c error) st
  | Closing =>
      if decide (readyState st = OPEN) then with_readyState CLOSING st else st
  | Close => on_close st
  end.

Definition run (st : Conn) (events : list Event) : Conn :=
  foldl step st events.

(** The [sub.destroy()] calls among some effects. *)
Definition destroy_calls (l : list Effect) : list Sub :=
  omap (fun e => match e with Destroyed sub => Some sub | _ => None end) l.

(** The [client.send] calls among some effects. *)
Definition send_calls (l : list Effect) : list string :=
  omap (fun e => match e with Sent data => Some data | _ => None end) l.

(** [typeof info.input !== 'undefined' ? transformer.input.deserialize(info.input)
    : undefined] *)
Definition deserialized (input : value) : outcome value :=
  if negb (is_undefined input) then input_deserialize input
  else Returned VUndefined.

End Handler.

(** How many ['message'] events a sequence of events has. *)
Fixpoint messages (events : list Event) : nat :=
  match events with
  | [] => 0
  | Message _ :: events => S (messages events)
  | _ :: events => messages events
  end.

(** The calls whose listeners are registered on [sub], oldest first. *)
Definition listening (sub : Sub) (ls : list (Sub * Call)) : list Call :=
  omap (fun l => if decide (fst l = sub) then Some (snd l) else None) ls.

End WssHandler.

(** ** Sample data *)

Module Samples.
Import HttpRequest HttpBatchLink WssHandler.

(** Stand-ins for the JavaScript built-ins, which the properties below do
    not depend on.  [parse] decodes two texts, a stop message and a
    subscription request for id 7, each written here by a short name in
    place of its JSON text. *)
Definition stringify : value → string := fun _ => "<json>".
Definition encode : string → string := fun s => s.
Definition parse : string → outcome value := fun s =>
  if decide (s = "stop 7") then
    Returned (VObj [("id", VNum (int 7)); ("method", VStr "stop")])
  else if decide (s = "subscribe 7") then
    Returned (VObj [("id", VNum (int 7)); ("method", VStr "subscription");
                    ("params", VObj [("path", VStr "posts.onAdd");
                                     ("input", VNull)])])
  else Thrown (Error "Unexpected token").
Definition number_string : number → string := fun n =>
  match n with
  | Finite q => pretty (Qnum (this q))
  | NaN => "NaN"
  | Infinity false => "Infinity"
  | Infinity true => "-Infinity"
  end.
Definition error_shape : exn → string → option string → value → value :=
  fun error _ _ _ =>
    match error with
    | Error message => VStr message
    | _ => VNull
    end.

(** A runtime without an [AbortController] whose server answers every
    request with one envelope that is not an array. *)
Definition plain_runtime : LinkRuntimeOptions :=
  {| rt_AbortController := false;
     rt_serialize := fun v => v;
     rt_headers := Returned [("authorization", HString "token")];
     rt_fetch := fun _ _ => Returned {| res_json := Returned (VStr "pong") |} |}.


(** A query sent in batch form with two inputs. *)
Definition batch_of_two : Props :=
  {| runtime := plain_runtime; type := Hquery; method := Hquery;
     path := "user.get,user.list"; url := "/trpc";
     payload := Inputs [VNum (int 1); VNull] |}.

Definition get_user : Operation :=
  {| op_id := int 1; op_type := query; op_method := None;
     op_path := "user.get"; op_input := VNum (int 1) |}.

Definition list_users : Operation :=
  {| op_id := int 2; op_type := query; op_method := None;
     op_path := "user.list"; op_input := VNull |}.

Definition on_add : Operation :=
  {| op_id := int 3; op_type := subscription; op_method := None;
     op_path := "posts.onAdd"; op_input := VNull |}.

Definition add_post : Operation :=
  {| op_id := int 4; op_type := mutation; op_method := None;
     op_path := "post.add"; op_input := VNull |}.

(** The request the fetcher of the mutation loader makes for a window
    that holds [add_post] alone. *)
Definition batch_of_one : Props :=
  fetcher_props "/trpc" plain_runtime Hmutation Hmutation [add_post].

(** The socket handler with the stand-ins, an identity transformer and an
    error shape that keeps the message. *)
Definition server_step : Conn → Event → Conn :=
  WssHandler.step parse stringify number_string Returned (fun v => v)
    error_shape (fun e => e).

Definition server_run : Conn → list Event → Conn :=
  WssHandler.run parse stringify number_string Returned (fun v => v)
    error_shape (fun e => e).

Definition subscribe7 : Call :=
  {| call_id := int 7; call_type := subscription; call_path := "posts.onAdd";
     call_input := VNull |}.

(** A connection on which subscription 1 was opened under id 7. *)
Definition subscribed : Conn :=
  server_run connected
    [Message (VStr "subscribe 7"); Settled 0 (Returned (Subscription 1))].

(** The same connection after a second request under id 7 came in. *)
Definition resubscribing : Conn :=
  server_run subscribed [Message (VStr "subscribe 7")].

(** A runtime with an [AbortController]. *)
Definition abortable_runtime : LinkRuntimeOptions :=
  {| rt_AbortController := true;
     rt_serialize := fun v => v;
     rt_headers := Returned [];
     rt_fetch := fun _ _ => Returned {| res_json := Returned (VArr []) |} |}.

(** A decoder of two stop messages for id 7 that differ in their
    [jsonrpc] field, again named in place of their JSON text. *)
Definition parse_versions : string → outcome value := fun s =>
  if decide (s = "stop 7, version 1") then
    Returned (VObj [("jsonrpc", VStr "1.0"); ("id", VNum (int 7));
                    ("method", VStr "stop")])
  else
    Returned (VObj [("id", VNum (int 7)); ("method", VStr "stop");
                    ("jsonrpc", VStr "2.0")]).

(** A connection that has received the subscription request for id 7 and
    awaits its procedure. *)
Definition subscribing : Conn :=
  server_run connected [Message (VStr "subscribe 7")].

(** The same connection once the closing handshake has begun. *)
Definition subscribing_while_closing : Conn :=
  server_run connected [Message (VStr "subscribe 7"); Closing].

End Samples.

(** * Properties *)

(** ** The request executor *)

Section HttpRequestProperties.
Import HttpRequest.

Variable JSON_stringify : value → string.
Variable encodeURIComponent : string → string.

#[local] Abbreviation queryParts := (HttpRequest.queryParts JSON_stringify encodeURIComponent).
#[local] Abbreviation getUrl := (HttpRequest.getUrl JSON_stringify encodeURIComponent).
#[local] Abbreviation promise := (HttpRequest.promise JSON_stringify encodeURIComponent).
#[local] Abbreviation fetch_init := (HttpRequest.fetch_init JSON_stringify).

Lemma arrayToDict_from_lookup array index i :
  lookup_key (pretty i) (arrayToDict_from index array)
  = if decide (index ≤ i) then array !! (i - index) else None.
Proof.
  revert index. induction array as [|element rest IH]; intros index; simpl.
  - by case_decide.
  - destruct (decide (pretty i = pretty index)) as [Heq|Hne].
    + apply (inj pretty) in Heq as ->.
      rewrite decide_True, Nat.sub_diag by lia. done.
    + assert (i ≠ index) by congruence.
      rewrite IH. repeat case_decide; try lia; try done.
      by replace (i - index) with (S (i - S index)) by lia.
Qed.

Lemma arrayToDict_from_keys array index :
  map fst (arrayToDict_from index array) = map pretty (seq index (length array)).
Proof.
  revert index. induction array as [|element rest IH]; intros index; simpl;
    [done | by rewrite IH].
Qed.

(** C7.  In a batched request every input goes through the transformer on
    its own, and the serialized inputs are packed into an object, not an
    array, whose key [i] (as a decimal string) holds the serialized input
    of position [i], and which has no other keys. *)
Theorem inputs_packed_by_index (props : Props) (inputs : list value) :
  payload props = Inputs inputs →
  ∃ fields,
    input_of props = VObj fields
    ∧ Array_isArray (input_of props) = false
    ∧ map fst fields = map pretty (seq 0 (length inputs))
    ∧ ∀ i, lookup_key (pretty i) fields
           = rt_serialize (runtime props) <$> inputs !! i.
Proof.
  intros Hpayload. unfold input_of. rewrite Hpayload.
  eexists. split; [reflexivity|]. split; [reflexivity|]. split.
  - by rewrite arrayToDict_from_keys, length_map.
  - intros i. rewrite arrayToDict_from_lookup, decide_True by lia.
    by rewrite Nat.sub_0_r, list_lookup_fmap.
Qed.

(** C6, as the code has it.  [type=<type>] is among the query parameters
    iff the type differs from the method; [batch=1] iff the request was
    given a list of inputs, however many there are; [input=...] iff the
    method is [query] and the serialized input is not [undefined].  The
    URL is the base and the path, followed when there is a parameter by a
    question mark and the parameters joined by an ampersand. *)
Theorem getUrl_query_parameters (props : Props) :
  ("type=" +:+ type_name (type props) ∈ queryParts props
     ↔ type props ≠ method props)
  ∧ ("batch=1" ∈ queryParts props ↔ ∃ inputs, payload props = Inputs inputs)
  ∧ ("input=" +:+ encodeURIComponent (JSON_stringify (input_of props))
       ∈ queryParts props
     ↔ method props = Hquery ∧ input_of props ≠ VUndefined)
  ∧ getUrl props
    = match queryParts props with
      | [] => url props +:+ "/" +:+ path props
      | parts =>
          (url props +:+ "/" +:+ path props) +:+ "?" +:+ String.concat "&" parts
      end.
Proof.
  assert (Hundef : ∀ v, is_undefined v = false ↔ v ≠ VUndefined)
    by (intros []; simpl; split; congruence).
  unfold getUrl, queryParts, HttpRequest.queryParts; cbv zeta.
  destruct (bool_decide (type props = method props)) eqn:Ht;
    [apply bool_decide_eq_true in Ht|apply bool_decide_eq_false in Ht];
    (destruct (payload props) as [input|inputs] eqn:Hp);
    (destruct (bool_decide (method props = Hquery)) eqn:Hm;
      [apply bool_decide_eq_true in Hm|apply bool_decide_eq_false in Hm]);
    (destruct (is_undefined (input_of props)) eqn:Hu;
      [assert (input_of props = VUndefined)
         by (destruct (input_of props); done)
      |apply Hundef in Hu]);
    simpl; rewrite ?elem_of_cons, ?elem_of_nil;
    (split; [|split; [|split]]); try reflexivity; split;
    try (intros [?|H']; try discriminate; try destruct H'; try discriminate);
    try (intros [? ?]); try (intros ?); try discriminate; try done; eauto.
Qed.

Lemma cancel_no_controller n : Nat.iter n cancel None = None.
Proof. induction n as [|n IH]; simpl; [done | by rewrite IH]. Qed.

(** C10.  When the runtime carries no [AbortController], the controller of
    a request is [null] and stays so however often [cancel] is called: no
    call has anything to abort, the [fetch] is given no signal, and the
    promise settles as the chain of [headers], [fetch] and [json] does. *)
Theorem cancel_without_AbortController (props : Props) (n : nat) :
  rt_AbortController (runtime props) = false →
  Nat.iter n cancel (new_ac (runtime props)) = None
  ∧ (∀ rawHeaders,
       init_signal
         (fetch_init props (Nat.iter n cancel (new_ac (runtime props))) rawHeaders)
       = None)
  ∧ promise props (Nat.iter n cancel (new_ac (runtime props)))
    = (rawHeaders ← rt_headers (runtime props);
       res ← rt_fetch (runtime props) (getUrl props)
               (fetch_init props None rawHeaders);
       res_json res).
Proof.
  intros Hno. unfold new_ac. rewrite Hno, cancel_no_controller.
  split; [done|]. split; [done|].
  unfold promise, HttpRequest.promise.
  destruct (rt_headers (runtime props)) as [rawHeaders|e]; simpl; [|done].
  destruct (rt_fetch _ _ _) as [res|e]; simpl; [|done].
  by destruct (res_json res).
Qed.

End HttpRequestProperties.

Lemma inputs_packed_by_index_witness :
  HttpRequest.payload Samples.batch_of_two = HttpRequest.Inputs [VNum (int 1); VNull]
  ∧ ∃ fields,
      HttpRequest.input_of Samples.batch_of_two = VObj fields
      ∧ Array_isArray (HttpRequest.input_of Samples.batch_of_two) = false
      ∧ map fst fields = map pretty (seq 0 2)
      ∧ ∀ i, lookup_key (pretty i) fields
             = (fun v => v) <$> [VNum (int 1); VNull] !! i.
Proof.
  split; [reflexivity|].
  apply (inputs_packed_by_index Samples.batch_of_two [VNum (int 1); VNull]).
  reflexivity.
Defined.

(** C6, as stated, fails: the request for a window of one operation has
    a single input and carries [batch=1]. *)
Lemma batch_flag_with_one_input :
  HttpRequest.payload Samples.batch_of_one = HttpRequest.Inputs [VNull]
  ∧ HttpRequest.queryParts Samples.stringify Samples.encode Samples.batch_of_one
    = ["batch=1"]
  ∧ ¬ ("batch=1" ∈ HttpRequest.queryParts Samples.stringify Samples.encode
                     Samples.batch_of_one
       ↔ 1 < HttpRequest.input_count Samples.batch_of_one).
Proof.
  split; [reflexivity|]. split; [reflexivity|].
  intros [Hiff _].
  assert (1 < 1) as Hlt by (apply Hiff, list_elem_of_singleton; reflexivity).
  lia.
Qed.

Lemma cancel_without_AbortController_witness :
  HttpRequest.rt_AbortController (HttpRequest.runtime Samples.batch_of_two) = false
  ∧ Nat.iter 3 HttpRequest.cancel (HttpRequest.new_ac Samples.plain_runtime) = None
  ∧ (∀ rawHeaders,
       HttpRequest.init_signal
         (HttpRequest.fetch_init Samples.stringify Samples.batch_of_two
            (Nat.iter 3 HttpRequest.cancel
               (HttpRequest.new_ac Samples.plain_runtime)) rawHeaders)
       = None)
  ∧ HttpRequest.promise Samples.stringify Samples.encode Samples.batch_of_two
      (Nat.iter 3 HttpRequest.cancel (HttpRequest.new_ac Samples.plain_runtime))
    = Returned (VStr "pong").
Proof.
  split; [reflexivity|].
  apply (cancel_without_AbortController Samples.stringify Samples.encode
           Samples.batch_of_two 3).
  reflexivity.
Defined.

(** ** The batching link *)

Section HttpBatchLinkProperties.
Import HttpRequest HttpBatchLink.

Variable JSON_stringify : value → string.
Variable encodeURIComponent : string → string.
Variable url : string.
Variable runtime : LinkRuntimeOptions.

#[local] Abbreviation fetcher_props := (HttpBatchLink.fetcher_props url runtime).
#[local] Abbreviation fetcher :=
  (HttpBatchLink.fetcher JSON_stringify encodeURIComponent url runtime).
#[local] Abbreviation load_result :=
  (HttpBatchLink.load_result JSON_stringify encodeURIComponent url runtime).

Lemma map_const {A B} (b : B) (l : list A) :
  map (fun _ => b) l = replicate (length l) b.
Proof. induction l as [|a l IH]; simpl; [done | by rewrite IH]. Qed.

(** C1.  When the request of a window resolves with [res]: if [res] is not
    an array, the fetcher resolves with one copy of [res] per entry of the
    window and every entry resolves with [res] itself; if it is an array,
    the fetcher passes it on and entry [i] resolves with element [i] of
    it. *)
Theorem batch_response_delivery (type method : HttpType)
  (window : list Operation) (ac : option bool) (res : value) :
  promise JSON_stringify encodeURIComponent
    (fetcher_props type method window) ac = Returned res →
  (Array_isArray res = false →
   fetcher type method window ac = Returned (VArr (replicate (length window) res))
   ∧ ∀ i, i < length window →
          load_result type method window ac i = Some (Returned res))
  ∧ (∀ elements, res = VArr elements →
     fetcher type method window ac = Returned res
     ∧ ∀ i x, i < length window → elements !! i = Some x →
              load_result type method window ac i = Some (Returned x)).
Proof.
  intros Hres.
  unfold load_result, HttpBatchLink.load_result, fetcher,
    HttpBatchLink.fetcher, window_entry.
  rewrite Hres. simpl. unfold fetcher_then. split.
  - intros Hnot. rewrite Hnot. simpl. split.
    + by rewrite map_const.
    + intros i Hi. rewrite decide_True by done.
      rewrite list_lookup_fmap.
      destruct (lookup_lt_is_Some_2 window i Hi) as [op ->]. done.
  - intros elements ->. split; [done|]. intros i x Hi Hx. simpl.
    rewrite decide_True by done. by rewrite Hx.
Qed.

End HttpBatchLinkProperties.

Section LinkProperties.
Import HttpRequest HttpBatchLink.

(** C8.  An operation whose type or method is [subscription] makes the
    link throw before any loader is called; any other operation is loaded
    into the loader selected by its type and its method (its type again
    when it has no method). *)
Theorem subscription_rejected_over_http (op : Operation) :
  (op_type op = subscription ∨ op_method op = Some subscription →
   link op = Thrown (Error unsupported) ∧ loads (link op) = [])
  ∧ (¬ (op_type op = subscription ∨ op_method op = Some subscription) →
     ∃ loader,
       loaders (op_type op) (default (op_type op) (op_method op)) = Some loader
       ∧ link op = Returned {| loaded := (loader, op); isDone := false;
                               delivered := []; cancelled := 0; uncaught := [] |}
       ∧ loads (link op) = [(loader, op)]).
Proof.
  unfold link. split.
  - intros Hsub.
    assert (bool_decide (op_type op = subscription)
            || bool_decide (op_method op = Some subscription) = true) as ->; [|done].
    apply orb_true_iff. rewrite !bool_decide_eq_true. done.
  - intros Hnot.
    assert (bool_decide (op_type op = subscription)
            || bool_decide (op_method op = Some subscription) = false) as ->.
    { apply orb_false_iff. rewrite !bool_decide_eq_false. tauto. }
    destruct (op_type op) eqn:Ht, (op_method op) as [[]|] eqn:Hm; simpl;
      try (exfalso; apply Hnot; auto; fail); eauto.
Qed.

Variable transformRPCResponse : value → outcome OperationResult.
Variable prev : OperationResult → option exn.

#[local] Abbreviation step := (HttpBatchLink.step transformRPCResponse prev).
#[local] Abbreviation run := (HttpBatchLink.run transformRPCResponse prev).

Lemma prevOnce_done result st :
  isDone st = true → prevOnce prev result st = (st, None).
Proof. intros Hdone. unfold prevOnce. by rewrite Hdone. Qed.

Lemma step_done st ev :
  isDone st = true →
  isDone (step st ev) = true ∧ delivered (step st ev) = delivered st.
Proof.
  intros Hdone. destruct ev as [|[envelope|cause]]; simpl;
    unfold on_destroy, on_then, on_catch;
    repeat (rewrite prevOnce_done by done; simpl); try done.
  destruct (transformRPCResponse envelope); simpl;
    repeat (rewrite prevOnce_done by done; simpl); done.
Qed.

Lemma run_done st events :
  isDone st = true →
  isDone (run st events) = true ∧ delivered (run st events) = delivered st.
Proof.
  revert st. induction events as [|ev events IH]; intros st Hdone; [done|].
  destruct (step_done st ev Hdone) as [Hdone' Heq].
  destruct (IH _ Hdone') as [? ?]. simpl. split; congruence.
Qed.

Lemma step_called_once_done st ev :
  called_once_done st → called_once_done (step st ev).
Proof.
  intros [[Hnot Hnil]|[Hdone [result Hres]]].
  - right.
    destruct ev as [|[envelope|cause]]; simpl;
      unfold on_destroy, on_then, on_catch; try destruct (transformRPCResponse _);
      unfold prevOnce; rewrite ?Hnot, ?Hnil; simpl;
      repeat (destruct (prev _); simpl); eauto.
  - right. destruct (step_done st ev Hdone) as [-> ->]. eauto.
Qed.

Lemma run_called_once_done st events :
  called_once_done st → called_once_done (run st events).
Proof.
  revert st. induction events as [|ev events IH]; intros st Hst; [done|].
  simpl. by apply IH, step_called_once_done.
Qed.

Lemma link_called_once_done op st : link op = Returned st → called_once_done st.
Proof.
  unfold link. destruct (_ || _); [done|].
  destruct (loaders _ _); [|done]. intros [= <-]. by left.
Qed.

(** C2.  Whatever the order and number of settlements and teardowns of a
    call, [prev] is called at most once: once it has been called no later
    event calls it again, and when the teardown comes first only the abort
    result is ever delivered. *)
Theorem prev_called_at_most_once (op : Operation) (st : LinkState)
  (events : list Event) :
  link op = Returned st →
  length (delivered (run st events)) ≤ 1
  ∧ (∀ more, delivered (run st events) ≠ [] →
             delivered (run st (events ++ more)) = delivered (run st events))
  ∧ (∀ more, delivered (run st (Destroy :: more))
             = [ClientError TRPCAbortError (Some true)]).
Proof.
  intros Hlink. pose proof (link_called_once_done _ _ Hlink) as Hinit.
  split; [|split].
  - destruct (run_called_once_done st events Hinit)
      as [[_ ->]|[_ [result ->]]]; simpl; lia.
  - intros more Hcalled. unfold run, HttpBatchLink.run. rewrite foldl_app.
    apply run_done.
    destruct (run_called_once_done st events Hinit) as [[_ Hnil]|[Hdone _]];
      done.
  - intros more.
    assert (isDone st = false ∧ delivered st = []) as [Hnot Hnil].
    { revert Hlink. unfold link. destruct (_ || _); [done|].
      destruct (loaders _ _); [|done]. by intros [= <-]. }
    change (run st (Destroy :: more)) with (run (on_destroy prev st) more).
    assert (isDone (on_destroy prev st) = true
            ∧ delivered (on_destroy prev st)
              = [ClientError TRPCAbortError (Some true)]) as [Hdone Hd].
    { unfold on_destroy, prevOnce. rewrite Hnot, Hnil.
      destruct (prev _); done. }
    destruct (run_done _ more Hdone) as [_ ->]. done.
Qed.

End LinkProperties.

Lemma batch_response_delivery_witness :
  HttpRequest.promise Samples.stringify Samples.encode
    (HttpBatchLink.fetcher_props "/trpc" Samples.plain_runtime
       HttpRequest.Hquery HttpRequest.Hquery
       [Samples.get_user; Samples.list_users]) None
  = Returned (VStr "pong")
  ∧ HttpBatchLink.fetcher Samples.stringify Samples.encode "/trpc"
      Samples.plain_runtime HttpRequest.Hquery HttpRequest.Hquery
      [Samples.get_user; Samples.list_users] None
    = Returned (VArr [VStr "pong"; VStr "pong"])
  ∧ ∀ i, i < 2 →
         HttpBatchLink.load_result Samples.stringify Samples.encode "/trpc"
           Samples.plain_runtime HttpRequest.Hquery HttpRequest.Hquery
           [Samples.get_user; Samples.list_users] None i
         = Some (Returned (VStr "pong")).
Proof.
  split; [reflexivity|].
  destruct (batch_response_delivery Samples.stringify Samples.encode "/trpc"
              Samples.plain_runtime HttpRequest.Hquery HttpRequest.Hquery
              [Samples.get_user; Samples.list_users] None (VStr "pong")
              eq_refl) as [Hplain _].
  exact (Hplain eq_refl).
Defined.

(** ** The socket handler *)

Section WssHandlerProperties.
Import WssHandler.

Variable JSON_parse : string → outcome value.
Variable JSON_stringify : value → string.
Variable Number_toString : number → string.
Variable input_deserialize : value → outcome value.
Variable output_serialize : value → value.
Variable getErrorShape : exn → string → option string → value → value.
Variable getErrorFromUnknown : exn → exn.

#[local] Abbreviation parseMessage := (WssHandler.parseMessage JSON_parse).
#[local] Abbreviation valid_message := (WssHandler.valid_message JSON_parse).
#[local] Abbreviation respond :=
  (WssHandler.respond JSON_stringify output_serialize).
#[local] Abbreviation response := (WssHandler.response output_serialize).
#[local] Abbreviation on_catch :=
  (WssHandler.on_catch JSON_stringify output_serialize getErrorShape).
#[local] Abbreviation on_message :=
  (WssHandler.on_message JSON_parse input_deserialize).
#[local] Abbreviation on_procedure :=
  (WssHandler.on_procedure JSON_stringify Number_toString output_serialize
     getErrorShape).
#[local] Abbreviation step :=
  (WssHandler.step JSON_parse JSON_stringify Number_toString input_deserialize
     output_serialize getErrorShape getErrorFromUnknown).
#[local] Abbreviation run :=
  (WssHandler.run JSON_parse JSON_stringify Number_toString input_deserialize
     output_serialize getErrorShape getErrorFromUnknown).

(** *** The parser *)

Lemma assertIsString_Returned v s : assertIsString v = Returned s ↔ v = VStr s.
Proof. destruct v; simpl; split; congruence. Qed.

Lemma assertIsObject_Returned v v' :
  assertIsObject v = Returned v' ↔ ∃ fields, v = VObj fields ∧ v' = v.
Proof.
  unfold assertIsObject. destruct v as [| |[]|[| |]| [|]| |]; simpl;
    try case_bool_decide; simpl;
    split; try (intros [? [? ?]]); try intros [= <-]; try done; eauto;
    congruence.
Qed.

Lemma assertIsRequestId_Returned v n :
  assertIsRequestId v = Returned n ↔ v = VNum n ∧ n ≠ NaN.
Proof.
  destruct v as [| | |[]| | |]; simpl; split;
    try (intros [? ?]); try intros [= <-]; try done; try congruence.
Qed.

Lemma assertIsProcedureType_Returned v t :
  assertIsProcedureType v = Returned t ↔ v = VStr (procedure_name t).
Proof.
  unfold assertIsProcedureType, is_string.
  destruct v; try (destruct t; split; simpl; congruence).
  repeat case_bool_decide; subst; destruct t; simpl; split; congruence.
Qed.

Lemma get_prop_defined fields k v :
  v ≠ VUndefined →
  get_prop (VObj fields) k = v ↔ lookup_key k fields = Some v.
Proof.
  intros Hv. simpl. destruct (lookup_key k fields); simpl; split; congruence.
Qed.

Lemma is_string_true v s : is_string v s = true ↔ v = VStr s.
Proof.
  destruct v; simpl; try (split; congruence).
  rewrite bool_decide_eq_true. split; congruence.
Qed.

Lemma parseMessage_Returned message info :
  parseMessage message = Returned info ↔
  ∃ s obj id,
    message = VStr s ∧ JSON_parse s = Returned (VObj obj)
    ∧ lookup_key "id" obj = Some (VNum id) ∧ id ≠ NaN
    ∧ (lookup_key "method" obj = Some (VStr "stop") ∧ info = StopInfo id
       ∨ ∃ type params path,
           lookup_key "method" obj = Some (VStr (procedure_name type))
           ∧ lookup_key "params" obj = Some (VObj params)
           ∧ lookup_key "path" params = Some (VStr path)
           ∧ info = CallInfo type id (get_prop (VObj params) "input") path).
Proof.
  unfold parseMessage, WssHandler.parseMessage. split.
  - destruct (assertIsString message) as [s|] eqn:Hs; [|done].
    apply assertIsString_Returned in Hs as ->. simpl.
    destruct (JSON_parse s) as [obj|] eqn:Hparse; [|done]. simpl.
    destruct (assertIsObject obj) as [obj'|] eqn:Hobj; [|done].
    apply assertIsObject_Returned in Hobj as (fields & -> & ->).
    cbn [mbind outcome_bind].
    destruct (assertIsRequestId _) as [id|] eqn:Hid; [|done].
    apply assertIsRequestId_Returned in Hid as [Hid Hnan].
    apply get_prop_defined in Hid; [|done].
    destruct (is_string _ "stop") eqn:Hstop.
    + apply is_string_true, get_prop_defined in Hstop; [|done].
      intros [= <-]. exists s, fields, id. eauto 10.
    + destruct (assertIsProcedureType _) as [type|] eqn:Htype; [|done].
      apply assertIsProcedureType_Returned, get_prop_defined in Htype; [|done].
      cbn [mbind outcome_bind].
      destruct (assertIsObject (get_prop (VObj fields) "params"))
        as [params'|] eqn:Hparams; [|done].
      apply assertIsObject_Returned in Hparams as (params & Hparams & ->).
      rewrite Hparams. apply get_prop_defined in Hparams; [|done].
      cbn [mbind outcome_bind].
      destruct (assertIsString _) as [path|] eqn:Hpath; [|done].
      apply assertIsString_Returned, get_prop_defined in Hpath; [|done].
      intros [= <-]. exists s, fields, id.
      split_and!; try done. right. exists type, params, path. done.
  - intros (s & obj & id & -> & Hparse & Hid & Hnan & Hrest). simpl.
    rewrite Hparse. simpl.
    assert (get_prop (VObj obj) "id" = VNum id) as Hid'
      by (by apply get_prop_defined).
    unfold get_prop in Hid'. rewrite Hid'. simpl.
    destruct id as [|neg|q]; [done|..]; simpl.
    all: destruct Hrest as [[Hm ->]|(type & params & path & Hm & Hp & Hpath & ->)];
      rewrite Hm; simpl; [done|].
    all: rewrite Hp; destruct type; simpl; by rewrite Hpath.
Qed.

Lemma send_calls_app (l l' : list Effect) :
  send_calls (l ++ l') = send_calls l ++ send_calls l'.
Proof. unfold send_calls. apply omap_app. Qed.


(** *** The subscription map *)

Lemma lookup_delete_key_eq {A} (id : number) (m : list (number * A)) :
  lookup_key id (delete_key id m) = None.
Proof.
  induction m as [|[id' sub] m IH]; simpl; [done|].
  case_decide; simpl; [done|]. by rewrite decide_False.
Qed.

Lemma lookup_delete_key_ne {A} (id id' : number) (m : list (number * A)) :
  id' ≠ id → lookup_key id' (delete_key id m) = lookup_key id' m.
Proof.
  intros Hne. induction m as [|[id'' sub] m IH]; simpl; [done|].
  repeat (case_decide; simpl); subst; try done.
Qed.

Lemma delete_key_absent {A} (id : number) (m : list (number * A)) :
  lookup_key id m = None → delete_key id m = m.
Proof.
  induction m as [|[id' sub] m IH]; simpl; [done|].
  case_decide; [done|]. intros Hm. by rewrite IH.
Qed.


(** *** Closing *)

Lemma destroy_all_eq (subs : list Sub) (st : Conn) :
  foldl (fun st sub => emit (Destroyed sub) st) st subs
  = {| clientSubscriptions := clientSubscriptions st;
       closeListeners := closeListeners st;
       readyState := readyState st; listeners := listeners st;
       suspended := suspended st;
       effects := effects st ++ map Destroyed subs |}.
Proof.
  revert st. induction subs as [|sub subs IH]; intros st; simpl.
  - rewrite app_nil_r. by destruct st.
  - rewrite IH. simpl. by rewrite <- app_assoc.
Qed.

Lemma close_listener_eq (st : Conn) :
  close_listener st
  = {| clientSubscriptions := [];
       closeListeners := closeListeners st;
       readyState := readyState st; listeners := listeners st;
       suspended := suspended st;
       effects := effects st ++ map Destroyed (map snd (clientSubscriptions st)) |}.
Proof. unfold close_listener. by rewrite destroy_all_eq. Qed.

Lemma close_listener_empty (st : Conn) :
  clientSubscriptions st = [] → close_listener st = st.
Proof.
  intros Hempty. rewrite close_listener_eq, Hempty. simpl.
  rewrite app_nil_r. destruct st; simpl in *. by subst.
Qed.

Lemma close_listeners_eq (n : nat) (st : Conn) :
  Nat.iter (S n) close_listener st = close_listener st.
Proof.
  induction n as [|n IH]; [done|].
  change (close_listener (Nat.iter (S n) close_listener st) = close_listener st).
  rewrite IH. apply close_listener_empty. by rewrite close_listener_eq.
Qed.

Lemma on_close_ready (st : Conn) :
  close_ready st →
  on_close st
  = {| clientSubscriptions := [];
       closeListeners := closeListeners st;
       readyState := CLOSED; listeners := listeners st;
       suspended := suspended st;
       effects := effects st ++ map Destroyed (map snd (clientSubscriptions st)) |}.
Proof.
  unfold on_close. intros [[Hempty _]|Hpos].
  - destruct (closeListeners st) as [|n] eqn:Hn.
    + simpl. unfold with_readyState. rewrite Hempty, Hn. simpl.
      by rewrite app_nil_r.
    + rewrite close_listeners_eq, close_listener_eq. simpl. by rewrite Hn.
  - destruct (closeListeners st) as [|n] eqn:Hn; [lia|].
    rewrite close_listeners_eq, close_listener_eq. simpl. by rewrite Hn.
Qed.

Lemma on_close_readyState (st : Conn) : readyState (on_close st) = CLOSED.
Proof.
  unfold on_close. destruct (closeListeners st) as [|n]; [done|].
  by rewrite close_listeners_eq, close_listener_eq.
Qed.

Lemma notify_core (sub : Sub) (f : Call → Conn → Conn) (st : Conn) :
  (∀ c st', core (f c st') = core st') → core (notify sub f st) = core st.
Proof.
  intros Hf. unfold notify. generalize (listeners st) as ls.
  intros ls. revert st. induction ls as [|l ls IH]; intros st; simpl; [done|].
  rewrite IH. case_decide; [apply Hf|done].
Qed.

Lemma invariants_core (st st' : Conn) :
  core st' = core st →
  close_ready st ∧ closed_empty st → close_ready st' ∧ closed_empty st'.
Proof.
  unfold core, close_ready, closed_empty. intros [= -> -> -> ->]. done.
Qed.

Lemma on_message_fields (message : value) (st : Conn) :
  closeListeners (on_message message st) = S (closeListeners st)
  ∧ readyState (on_message message st) = readyState st
  ∧ (clientSubscriptions (on_message message st) = clientSubscriptions st
     ∨ ∃ id, clientSubscriptions (on_message message st)
             = delete_key id (clientSubscriptions st)).
Proof.
  unfold on_message, WssHandler.on_message.
  destruct (WssHandler.parseMessage JSON_parse message)
    as [[id|type id input path]|e]; simpl.
  - destruct (lookup_key id (clientSubscriptions st)); simpl; eauto.
  - destruct (if negb _ then _ else _); simpl; eauto.
  - eauto.
Qed.

Lemma step_invariants (st : Conn) (ev : Event) :
  close_ready st ∧ closed_empty st →
  close_ready (step st ev) ∧ closed_empty (step st ev).
Proof.
  intros [Hready Hclosed]. destruct ev as [message|k o|sub data|sub error| |].
  - destruct (on_message_fields message st) as (Hn & Hrs & Hsubs).
    change (step st (Message message)) with (on_message message st).
    split; [right; rewrite Hn; lia|].
    unfold closed_empty. rewrite Hrs. intros Hc.
    destruct Hsubs as [->|[id ->]]; rewrite (Hclosed Hc); done.
  - simpl. destruct (suspended st !! k) as [[c|c sub]|] eqn:Hk; [| |done].
    + assert (0 < closeListeners st) as Hpos.
      { destruct Hready as [[_ Hnil]|?]; [|done]. by rewrite Hnil in Hk. }
      unfold WssHandler.on_procedure. destruct o as [[result|sub]|e]; simpl.
      * split; [by right|exact Hclosed].
      * unfold closed_empty in *.
        destruct (readyState st) eqn:Hrs; simpl;
          try destruct (lookup_key _ _); simpl;
          (split; [by right|simpl; rewrite ?Hrs; done]).
      * split; [by right|exact Hclosed].
    + assert (0 < closeListeners st) as Hpos.
      { destruct Hready as [[_ Hnil]|?]; [|done]. by rewrite Hnil in Hk. }
      destruct o as [?|e]; simpl; (split; [by right|exact Hclosed]).
  - apply (invariants_core st); [|done]. simpl. by apply notify_core.
  - apply (invariants_core st); [|done]. simpl. by apply notify_core.
  - simpl. case_decide as Hopen; [|done]. split; [exact Hready|].
    intros Hc. simpl in Hc. done.
  - simpl. rewrite on_close_ready by done. split; [|done].
    destruct Hready as [[_ Hnil]|?]; [left|right]; done.
Qed.

Lemma run_invariants (st : Conn) (events : list Event) :
  close_ready st ∧ closed_empty st →
  close_ready (run st events) ∧ closed_empty (run st events).
Proof.
  revert st. induction events as [|ev events IH]; intros st Hst; [done|].
  simpl. by apply IH, step_invariants.
Qed.

Lemma connected_invariants : close_ready connected ∧ closed_empty connected.
Proof. split; [by left|done]. Qed.

(** C3.  After any events on a connection, the close event calls
    [destroy] once for every entry of the map, in the order of the
    entries, and empties the map, however many close listeners the
    messages have registered.  Whatever happens afterwards, another close
    event calls nothing and finds the map empty. *)
Theorem close_destroys_each_once (events : list Event) :
  effects (on_close (run connected events))
  = effects (run connected events)
    ++ map Destroyed (map snd (clientSubscriptions (run connected events)))
  ∧ clientSubscriptions (on_close (run connected events)) = []
  ∧ ∀ more,
      effects (on_close (run (on_close (run connected events)) more))
      = effects (run (on_close (run connected events)) more)
      ∧ clientSubscriptions (on_close (run (on_close (run connected events)) more))
        = [].
Proof.
  pose proof (run_invariants connected events connected_invariants) as Hst.
  split; [|split].
  - by rewrite on_close_ready by apply Hst.
  - by rewrite on_close_ready by apply Hst.
  - intros more.
    pose proof (step_invariants _ Close Hst) as Hclose.
    change (step (run connected events) Close)
      with (on_close (run connected events)) in Hclose.
    assert (readyState (on_close (run connected events)) = CLOSED) as Hrs
      by (by rewrite on_close_ready by apply Hst).
    assert (Hstay : ∀ more st, readyState st = CLOSED →
                               readyState (run st more) = CLOSED).
    { clear. intros more. induction more as [|ev more IH]; intros st Hrs; [done|].
      simpl. apply IH. destruct ev as [message|k o|sub data|sub error| |].
      - destruct (on_message_fields message st) as (_ & Hr & _).
        change (step st (Message message)) with (on_message message st).
        congruence.
      - simpl. destruct (suspended st !! k) as [[c|c sub]|]; [| |done].
        + unfold WssHandler.on_procedure. destruct o as [[|]|]; simpl; try done.
          rewrite Hrs. done.
        + destruct o; done.
      - pose proof (notify_core sub
          (fun c => on_data JSON_stringify output_serialize c data) st
          ltac:(done)) as [= _ _ Hr _]. simpl. congruence.
      - pose proof (notify_core sub
          (fun c => on_error JSON_stringify output_serialize getErrorShape
                      getErrorFromUnknown c error) st
          ltac:(done)) as [= _ _ Hr _]. simpl. congruence.
      - simpl. case_decide; [congruence|done].
      - apply on_close_readyState. }
    pose proof (run_invariants _ more Hclose) as [Hready Hempty].
    rewrite on_close_ready by done.
    rewrite (Hempty (Hstay more _ Hrs)). simpl. by rewrite app_nil_r.
Qed.

(** *** Close listeners are interchangeable *)

Lemma notify_same (sub : Sub) (f : Call → Conn → Conn) (st st' : Conn) :
  (∀ c st st', same_but_listeners st st' → same_but_listeners (f c st) (f c st')) →
  same_but_listeners st st' →
  same_but_listeners (notify sub f st) (notify sub f st').
Proof.
  intros Hf Hsame. unfold notify.
  assert (listeners st' = listeners st) as -> by (symmetry; apply Hsame).
  generalize (listeners st) as ls. intros ls. revert st st' Hsame.
  induction ls as [|l ls IH]; intros st st' Hsame; simpl; [done|].
  apply IH. case_decide; [by apply Hf|done].
Qed.

Lemma step_same (st st' : Conn) (ev : Event) :
  close_ready st → close_ready st' →
  same_but_listeners st st' →
  same_but_listeners (step st ev) (step st' ev).
Proof.
  intros Hready Hready' Hsame.
  assert (Hrespond : ∀ id json st1 st2,
            same_but_listeners st1 st2 →
            same_but_listeners (respond id json st1) (respond id json st2)).
  { intros id json st1 st2 (Hs & Hr & Hl & Hp & He).
    unfold same_but_listeners. simpl. split_and!; congruence. }
  destruct ev as [message|k o|sub data|sub error| |];
    [| |by apply notify_same; [intros; apply Hrespond|]..| |];
    destruct Hsame as (Hs & Hr & Hl & Hp & He).
  - simpl. unfold WssHandler.on_message, same_but_listeners.
    destruct (WssHandler.parseMessage JSON_parse message)
      as [[id|type id input path]|e]; simpl; rewrite <- ?Hs.
    + destruct (lookup_key id (clientSubscriptions st)); simpl;
        split_and!; congruence.
    + destruct (if negb _ then _ else _); simpl; split_and!; congruence.
    + split_and!; congruence.
  - simpl. rewrite <- Hp. unfold same_but_listeners.
    destruct (suspended st !! k) as [[c|c sub]|]; [| |done].
    + unfold WssHandler.on_procedure. destruct o as [[result|sub]|e]; simpl;
        rewrite <- ?Hr, <- ?Hs.
      * split_and!; congruence.
      * destruct (bool_decide (readyState st = OPEN)); simpl;
          [|split_and!; congruence].
        destruct (lookup_key _ _); simpl; split_and!; congruence.
      * split_and!; congruence.
    + destruct o as [?|e]; simpl; split_and!; congruence.
  - simpl. rewrite <- Hr. unfold same_but_listeners.
    case_decide; simpl; split_and!; congruence.
  - simpl. rewrite !on_close_ready by done. unfold same_but_listeners.
    simpl. split_and!; congruence.
Qed.

Lemma run_same (st st' : Conn) (events : list Event) :
  close_ready st ∧ closed_empty st →
  close_ready st' ∧ closed_empty st' →
  same_but_listeners st st' →
  same_but_listeners (run st events) (run st' events).
Proof.
  revert st st'. induction events as [|ev events IH]; intros st st' H H' Hsame;
    [done|].
  simpl. apply IH; [by apply step_invariants..|].
  apply step_same; [apply H|apply H'|done].
Qed.

(** C9.  A stop message for an id that has an entry calls [destroy] on the
    subscription of that entry and deletes the entry, leaving the others;
    for an id without entry (so also when the same stop comes again) it
    calls nothing, sends nothing and throws nothing, and the map, the
    socket and the suspended handlers are as before: the handler only
    registers its close listener, as it does for every message, and on a
    connection that satisfies the invariants of the handler no later event
    can tell that listener from the ones already there. *)
Theorem stop_message (message : value) (id : number) (st : Conn) :
  parseMessage message = Returned (StopInfo id) →
  (∀ sub, lookup_key id (clientSubscriptions st) = Some sub →
     effects (on_message message st) = effects st ++ [Destroyed sub]
     ∧ clientSubscriptions (on_message message st)
       = delete_key id (clientSubscriptions st)
     ∧ lookup_key id (clientSubscriptions (on_message message st)) = None
     ∧ ∀ id', id' ≠ id →
         lookup_key id' (clientSubscriptions (on_message message st))
         = lookup_key id' (clientSubscriptions st))
  ∧ (lookup_key id (clientSubscriptions st) = None →
     on_message message st = add_close_listener st)
  ∧ on_message message (on_message message st)
    = add_close_listener (on_message message st)
  ∧ (lookup_key id (clientSubscriptions st) = None →
     close_ready st ∧ closed_empty st →
     ∀ events,
       same_but_listeners (run (on_message message st) events) (run st events)).
Proof.
  intros Hparse.
  assert (Hstop : ∀ st', on_message message st' =
    with_subscriptions (delete_key id (clientSubscriptions st'))
      (match lookup_key id (clientSubscriptions st') with
       | Some sub => emit (Destroyed sub) (add_close_listener st')
       | None => add_close_listener st'
       end)).
  { intros st'. unfold on_message, WssHandler.on_message. fold parseMessage.
    rewrite Hparse. simpl. by destruct (lookup_key _ _). }
  assert (Hnone : ∀ st', lookup_key id (clientSubscriptions st') = None →
                         on_message message st' = add_close_listener st').
  { intros st' Hst'. rewrite Hstop, Hst', delete_key_absent by done. done. }
  split; [|split; [|split]].
  - intros sub Hsub. rewrite Hstop, Hsub. simpl.
    split_and!; try done.
    + apply lookup_delete_key_eq.
    + intros id' Hne. by apply lookup_delete_key_ne.
  - apply Hnone.
  - apply Hnone. rewrite Hstop.
    change (lookup_key id (delete_key id (clientSubscriptions st)) = None).
    apply lookup_delete_key_eq.
  - intros Hnot Hinv events. rewrite Hnone by done.
    apply run_same; [|done|done].
    split; [right; simpl; lia|apply Hinv].
Qed.

End WssHandlerProperties.

(** ** Instances on sample data *)

Lemma subscription_rejected_over_http_witness :
  HttpBatchLink.link Samples.on_add
  = Thrown (Error HttpBatchLink.unsupported)
  ∧ HttpBatchLink.loads (HttpBatchLink.link Samples.on_add) = []
  ∧ HttpBatchLink.loads (HttpBatchLink.link Samples.get_user)
    = [((HttpRequest.Hquery, HttpRequest.Hquery), Samples.get_user)].
Proof.
  destruct (subscription_rejected_over_http Samples.on_add) as [Hsub _].
  destruct (Hsub (or_introl eq_refl)) as [Hthrown Hloads].
  split; [exact Hthrown|]. split; [exact Hloads|].
  destruct (subscription_rejected_over_http Samples.get_user) as [_ Hother].
  destruct Hother as (loader & Hloader & _ & Hloaded).
  - intros [H|H]; discriminate H.
  - injection Hloader as <-. exact Hloaded.
Defined.

Lemma prev_called_at_most_once_witness :
  HttpBatchLink.link Samples.get_user
  = Returned {| HttpBatchLink.loaded :=
                  ((HttpRequest.Hquery, HttpRequest.Hquery), Samples.get_user);
                HttpBatchLink.isDone := false; HttpBatchLink.delivered := [];
                HttpBatchLink.cancelled := 0; HttpBatchLink.uncaught := [] |}
  ∧ ∀ transformRPCResponse prev envelope,
      HttpBatchLink.delivered
        (HttpBatchLink.run transformRPCResponse prev
           {| HttpBatchLink.loaded :=
                ((HttpRequest.Hquery, HttpRequest.Hquery), Samples.get_user);
              HttpBatchLink.isDone := false; HttpBatchLink.delivered := [];
              HttpBatchLink.cancelled := 0; HttpBatchLink.uncaught := [] |}
           [HttpBatchLink.Destroy;
            HttpBatchLink.Settle (Returned envelope)])
      = [HttpBatchLink.ClientError TRPCAbortError (Some true)].
Proof.
  split; [reflexivity|].
  intros transformRPCResponse prev envelope.
  apply (prev_called_at_most_once transformRPCResponse prev Samples.get_user _
           [] eq_refl).
Defined.

Lemma stop_message_witness :
  WssHandler.parseMessage Samples.parse (VStr "stop 7")
  = Returned (WssHandler.StopInfo (int 7))
  ∧ WssHandler.effects
      (WssHandler.on_message Samples.parse Returned (VStr "stop 7")
         Samples.subscribed)
    = WssHandler.effects Samples.subscribed ++ [WssHandler.Destroyed 1]
  ∧ WssHandler.on_message Samples.parse Returned (VStr "stop 7")
      (WssHandler.on_message Samples.parse Returned (VStr "stop 7")
         Samples.subscribed)
    = WssHandler.add_close_listener
        (WssHandler.on_message Samples.parse Returned (VStr "stop 7")
           Samples.subscribed).
Proof.
  split; [reflexivity|].
  destruct (stop_message Samples.parse Samples.stringify Samples.number_string
              Returned (fun v => v) Samples.error_shape (fun e => e) (VStr "stop 7") (int 7)
              Samples.subscribed eq_refl) as (Hlive & _ & Hagain & _).
  split; [|exact Hagain].
  destruct (Hlive 1 eq_refl) as [Heffects _]. exact Heffects.
Defined.


(** The duplicate request of [resubscribing] is answered with the error
    envelope, and closing afterwards destroys subscription 1 once. *)
Example duplicate_then_close :
  WssHandler.effects
    (Samples.server_run Samples.resubscribing
       [WssHandler.Settled 1 (Returned (WssHandler.Subscription 2));
        WssHandler.Close; WssHandler.Close])
  = [WssHandler.Called Samples.subscribe7; WssHandler.Started 1;
     WssHandler.Called Samples.subscribe7; WssHandler.Destroyed 2;
     WssHandler.Sent "<json>"; WssHandler.Destroyed 1].
Proof. reflexivity. Qed.

(** An array response of a window of two is handed out by position. *)
Example array_response_by_position :
  let runtime :=
    {| HttpRequest.rt_AbortController := true;
       HttpRequest.rt_serialize := fun v => v;
       HttpRequest.rt_headers := Returned [];
       HttpRequest.rt_fetch := fun _ _ =>
         Returned {| HttpRequest.res_json :=
                       Returned (VArr [VStr "userA"; VStr "users"]) |} |} in
  map (HttpBatchLink.load_result Samples.stringify Samples.encode "/trpc"
         runtime HttpRequest.Hquery HttpRequest.Hquery
         [Samples.get_user; Samples.list_users] (Some false)) [0; 1; 2]
  = [Some (Returned (VStr "userA")); Some (Returned (VStr "users")); None].
Proof. reflexivity. Qed.

(** The URL of a query batch of two. *)
Example getUrl_batch_of_two :
  HttpRequest.getUrl Samples.stringify Samples.encode Samples.batch_of_two
  = "/trpc/user.get,user.list?batch=1&input=<json>".
Proof. reflexivity. Qed.

(** * Further properties *)

(** ** Entries kept in insertion order *)

Section Entries.
Context {K A : Type} `{EqDecision K}.
Implicit Types (k : K) (v : A) (m : list (K * A)).

Lemma lookup_set_key_eq k v m : lookup_key k (set_key k v m) = Some v.
Proof.
  induction m as [|[k' v'] m IH]; simpl.
  - by rewrite decide_True.
  - case_decide; simpl; [by rewrite decide_True|by rewrite decide_False].
Qed.

Lemma lookup_set_key_ne k k' v m :
  k' ≠ k → lookup_key k' (set_key k v m) = lookup_key k' m.
Proof.
  intros Hne. induction m as [|[k'' v''] m IH]; simpl.
  - by rewrite decide_False.
  - repeat (case_decide; simpl); subst; try done.
Qed.

Lemma lookup_key_None k m : lookup_key k m = None ↔ k ∉ map fst m.
Proof.
  induction m as [|[k' v'] m IH]; simpl.
  - split; [intros _; apply not_elem_of_nil|done].
  - rewrite not_elem_of_cons. case_decide; [|tauto].
    split; [done|]. intros [? _]. done.
Qed.

Lemma set_key_keys k v m :
  map fst (set_key k v m)
  = if decide (k ∈ map fst m) then map fst m else map fst m ++ [k].
Proof.
  induction m as [|[k' v'] m IH]; cbn [set_key map fst].
  - rewrite decide_False; [done|apply not_elem_of_nil].
  - destruct (decide (k = k')) as [->|Hne]; cbn [map fst].
    + rewrite decide_True; [done|apply elem_of_cons; by left].
    + rewrite IH. destruct (decide (k ∈ map fst m)) as [Hin|Hnin].
      * rewrite decide_True; [done|apply elem_of_cons; by right].
      * rewrite decide_False; [done|]. rewrite elem_of_cons. tauto.
Qed.

Lemma set_key_NoDup k v m : NoDup (map fst m) → NoDup (map fst (set_key k v m)).
Proof.
  intros Hm. rewrite set_key_keys. case_decide as Hin; [done|].
  apply NoDup_app. split; [done|]. split.
  - intros x Hx. rewrite list_elem_of_singleton. by intros ->.
  - apply NoDup_singleton.
Qed.

Lemma delete_key_keys k m :
  map fst (delete_key k m) = filter (fun k' => k' ≠ k) (map fst m).
Proof.
  induction m as [|[k' v'] m IH]; simpl; [done|].
  destruct (decide (k = k')) as [->|Hne].
  - by rewrite filter_cons_False by (intros ?; done).
  - rewrite filter_cons_True by done. simpl. by rewrite IH.
Qed.

Lemma delete_key_NoDup k m : NoDup (map fst m) → NoDup (map fst (delete_key k m)).
Proof. intros Hm. rewrite delete_key_keys. by apply NoDup_filter. Qed.

End Entries.

(** ** The request executor, continued *)

Section HttpRequestMore.
Import HttpRequest.

Variable JSON_stringify : value → string.
Variable encodeURIComponent : string → string.

#[local] Abbreviation queryParts :=
  (HttpRequest.queryParts JSON_stringify encodeURIComponent).
#[local] Abbreviation getUrl :=
  (HttpRequest.getUrl JSON_stringify encodeURIComponent).
#[local] Abbreviation getBody := (HttpRequest.getBody JSON_stringify).
#[local] Abbreviation fetch_init := (HttpRequest.fetch_init JSON_stringify).

Lemma is_undefined_false v : is_undefined v = false ↔ v ≠ VUndefined.
Proof. destruct v; simpl; split; congruence. Qed.

(** X1.  A defined input travels exactly once: with method [query] it is
    the [input=] parameter of the URL and there is no body; with method
    [mutation] it is the body, and the URL has no other parameters than
    [type=] and [batch=1].  An [undefined] input is sent in neither. *)
Theorem input_sent_once (props : Props) :
  (method props = Hquery →
   getBody props = None
   ∧ (input_of props ≠ VUndefined →
      "input=" +:+ encodeURIComponent (JSON_stringify (input_of props))
        ∈ queryParts props))
  ∧ (method props = Hmutation →
     (input_of props ≠ VUndefined →
      getBody props = Some (JSON_stringify (input_of props)))
     ∧ ∀ part, part ∈ queryParts props →
               part = "type=" +:+ type_name (type props) ∨ part = "batch=1")
  ∧ (input_of props = VUndefined →
     getBody props = None
     ∧ ∀ part, part ∈ queryParts props →
               part = "type=" +:+ type_name (type props) ∨ part = "batch=1").
Proof.
  unfold getBody, HttpRequest.getBody, queryParts, HttpRequest.queryParts;
    cbv zeta.
  split; [|split].
  - intros ->. split; [done|]. intros Hdef.
    apply is_undefined_false in Hdef. rewrite Hdef. simpl.
    destruct (negb _), (payload props); simpl;
      rewrite !elem_of_cons; auto 10.
  - intros ->. split.
    + intros Hdef. apply is_undefined_false in Hdef. by rewrite Hdef.
    + simpl. intros part.
      destruct (negb _), (payload props); simpl;
        rewrite ?elem_of_cons, ?elem_of_nil; tauto.
  - intros ->. simpl. split; [by destruct (method props)|].
    rewrite andb_false_r. intros part.
    destruct (negb _), (payload props); simpl;
      rewrite ?elem_of_cons, ?elem_of_nil; tauto.
Qed.

(** X2.  The URL has no query string exactly when the type equals the
    method, the request is in single form, and the method is [mutation] or
    the serialized input is [undefined]; it is then the base, a slash and
    the path. *)
Theorem getUrl_without_query (props : Props) :
  (queryParts props = [] ↔
   type props = method props
   ∧ (∃ input, payload props = Input input)
   ∧ (method props = Hmutation ∨ input_of props = VUndefined))
  ∧ (queryParts props = [] → getUrl props = url props +:+ "/" +:+ path props).
Proof.
  split.
  - unfold queryParts, HttpRequest.queryParts; cbv zeta.
    destruct (bool_decide (type props = method props)) eqn:Ht;
      [apply bool_decide_eq_true in Ht|apply bool_decide_eq_false in Ht];
      (destruct (payload props) as [input|inputs] eqn:Hp);
      (destruct (method props) eqn:Hm);
      (destruct (is_undefined (input_of props)) eqn:Hu;
        [assert (input_of props = VUndefined)
           by (destruct (input_of props); done)
        |apply is_undefined_false in Hu]);
      simpl; split; try done; try (intros (? & [? ?] & ?); done);
      try (intros _; split_and!; eauto; fail);
      try (intros (_ & _ & [?|?]); done).
  - unfold getUrl, HttpRequest.getUrl. by intros ->.
Qed.

Lemma lookup_assign_header_eq (key v : string) (headers : list (string * string)) :
  key ≠ "__proto__" → lookup_key key (assign_header key v headers) = Some v.
Proof.
  intros Hkey. unfold assign_header. rewrite decide_False by done.
  apply lookup_set_key_eq.
Qed.

Lemma lookup_assign_header_ne (key key' v : string)
  (headers : list (string * string)) :
  key' ≠ key →
  lookup_key key' (assign_header key v headers) = lookup_key key' headers.
Proof.
  intros Hne. unfold assign_header. case_decide; [done|].
  by apply lookup_set_key_ne.
Qed.

Lemma assign_header_NoDup (key v : string) (headers : list (string * string)) :
  NoDup (map fst headers) → NoDup (map fst (assign_header key v headers)).
Proof.
  intros Hh. unfold assign_header. case_decide; [done|]. by apply set_key_NoDup.
Qed.

Lemma merge_headers_lookup (rawHeaders : list (string * HeaderValue))
  (headers : list (string * string)) (key : string) :
  (∀ header, (key, header) ∈ rawHeaders → header = HUndefined) →
  lookup_key key (merge_headers rawHeaders headers) = lookup_key key headers.
Proof.
  revert headers. induction rawHeaders as [|[key' header] rest IH];
    intros headers Hundef; simpl; [done|].
  rewrite IH.
  - destruct (decide (key = key')) as [->|Hne].
    + rewrite (Hundef header); [done|]. apply elem_of_cons. by left.
    + destruct header; rewrite ?lookup_assign_header_ne by done; done.
  - intros h Hh. apply Hundef. apply elem_of_cons. by right.
Qed.

Lemma merge_headers_proto (rawHeaders : list (string * HeaderValue))
  (headers : list (string * string)) :
  lookup_key "__proto__" (merge_headers rawHeaders headers)
  = lookup_key "__proto__" headers.
Proof.
  revert headers. induction rawHeaders as [|[key header] rest IH];
    intros headers; simpl; [done|].
  rewrite IH. destruct header; try done; unfold assign_header;
    (case_decide; [done|]); by apply lookup_set_key_ne.
Qed.

(** X3.  Merging the raw headers into the default ones: a key whose raw
    values are all [undefined] (or that is absent) keeps what it had, so
    the default content type stays unless a header overrides it; a key
    other than [__proto__] that the raw headers give once, with a defined
    value, gets that value, an array joined by commas; nothing is ever
    stored under [__proto__], whatever the raw headers give for it; and
    no key occurs twice in the result. *)
Theorem merge_headers_result (rawHeaders : list (string * HeaderValue)) :
  ((∀ header, ("content-type", header) ∈ rawHeaders → header = HUndefined) →
   lookup_key "content-type"
     (merge_headers rawHeaders [("content-type", "application/json")])
   = Some "application/json")
  ∧ (NoDup (map fst rawHeaders) →
     ∀ key header, (key, header) ∈ rawHeaders → key ≠ "__proto__" →
       lookup_key key
         (merge_headers rawHeaders [("content-type", "application/json")])
       = match header with
         | HString s => Some s
         | HArray l => Some (String.concat "," l)
         | HUndefined =>
             if decide (key = "content-type") then Some "application/json"
             else None
         end)
  ∧ lookup_key "__proto__"
      (merge_headers rawHeaders [("content-type", "application/json")])
    = None
  ∧ NoDup (map fst
             (merge_headers rawHeaders [("content-type", "application/json")])).
Proof.
  assert (Hnodup : ∀ raw headers, NoDup (map fst headers) →
                     NoDup (map fst (merge_headers raw headers))).
  { induction raw as [|[key header] rest IH]; intros headers Hh; simpl; [done|].
    apply IH. destruct header; try done; by apply assign_header_NoDup. }
  assert (Hone : ∀ raw headers key header,
            NoDup (map fst raw) → (key, header) ∈ raw → key ≠ "__proto__" →
            lookup_key key (merge_headers raw headers)
            = match header with
              | HString s => Some s
              | HArray l => Some (String.concat "," l)
              | HUndefined => lookup_key key headers
              end).
  { induction raw as [|[key' header'] rest IH];
      intros headers key header Hnd Hin Hkey; simpl.
    - by apply elem_of_nil in Hin.
    - apply NoDup_cons in Hnd as [Hfresh Hnd].
      apply elem_of_cons in Hin as [[= <- <-]|Hin].
      + rewrite merge_headers_lookup.
        * destruct header; rewrite ?lookup_assign_header_eq by done; done.
        * intros h Hh. exfalso. apply Hfresh.
          apply list_elem_of_fmap. by exists (key, h).
      + rewrite (IH _ key header Hnd Hin Hkey).
        assert (key ≠ key') as Hne.
        { intros ->. apply Hfresh. apply list_elem_of_fmap.
          by exists (key', header). }
        destruct header; try done.
        destruct header'; rewrite ?lookup_assign_header_ne by done; done. }
  split; [|split; [|split]].
  - intros Hundef. by rewrite merge_headers_lookup.
  - intros Hnd key header Hin Hkey. rewrite (Hone _ _ key header Hnd Hin Hkey).
    destruct header; try done.
  - by rewrite merge_headers_proto.
  - apply Hnodup. simpl. apply NoDup_singleton.
Qed.

(** X4.  With an [AbortController] the first [cancel] aborts the signal
    and every later one changes nothing: before any call the signal is not
    aborted, after one or more it is. *)
Theorem cancel_idempotent (rt : LinkRuntimeOptions) (n : nat) :
  rt_AbortController rt = true →
  new_ac rt = Some false
  ∧ Nat.iter (S n) cancel (new_ac rt) = Some true
  ∧ Nat.iter (S n) cancel (new_ac rt) = cancel (new_ac rt).
Proof.
  intros Hac. unfold new_ac. rewrite Hac.
  assert (Nat.iter (S n) cancel (Some false) = Some true) as ->; [|done].
  induction n as [|n IH]; [done|].
  change (cancel (Nat.iter (S n) cancel (Some false)) = Some true).
  by rewrite IH.
Qed.

End HttpRequestMore.

(** ** The batching link, continued *)

Section FetcherMore.
Import HttpRequest HttpBatchLink.

Variable JSON_stringify : value → string.
Variable encodeURIComponent : string → string.
Variable url : string.
Variable runtime : LinkRuntimeOptions.

#[local] Abbreviation fetcher_props := (HttpBatchLink.fetcher_props url runtime).
#[local] Abbreviation fetcher :=
  (HttpBatchLink.fetcher JSON_stringify encodeURIComponent url runtime).
#[local] Abbreviation promise :=
  (HttpRequest.promise JSON_stringify encodeURIComponent).
#[local] Abbreviation queryParts :=
  (HttpRequest.queryParts JSON_stringify encodeURIComponent).

(** X5.  The promise of the fetcher rejects exactly when the request does,
    with the same cause; and when it resolves it resolves with an array,
    which has one element per operation of the window whenever the
    response was not an array. *)
Theorem fetcher_settles_with_array (type method : HttpType)
  (window : list Operation) (ac : option bool) :
  (∀ cause, fetcher type method window ac = Thrown cause
            ↔ promise (fetcher_props type method window) ac = Thrown cause)
  ∧ (∀ out, fetcher type method window ac = Returned out →
       ∃ elements,
         out = VArr elements
         ∧ ∀ res, promise (fetcher_props type method window) ac = Returned res →
                  Array_isArray res = false →
                  length elements = length window).
Proof.
  unfold fetcher, HttpBatchLink.fetcher.
  destruct (promise (fetcher_props type method window) ac) as [res|e]; simpl.
  - split; [done|]. intros out [= <-]. unfold fetcher_then.
    destruct res; simpl; eexists; (split; [done|]);
      intros res' [= <-]; try done; intros _; by rewrite length_map.
  - split; [done|]. done.
Qed.

(** X6.  The request of a window is always in batch form: its URL carries
    [batch=1], its path is the paths of the operations joined by commas,
    and its input is never [undefined], so that a query carries [input=]
    in the URL and a mutation has a body, also when the window is empty
    or every operation's input is [undefined]. *)
Theorem fetcher_request_is_batch (type method : HttpType)
  (window : list Operation) :
  "batch=1" ∈ queryParts (fetcher_props type method window)
  ∧ path (fetcher_props type method window)
    = String.concat "," (map op_path window)
  ∧ input_of (fetcher_props type method window)
    = arrayToDict (map (fun op => rt_serialize runtime (op_input op)) window)
  ∧ (method = Hquery →
     "input=" +:+ encodeURIComponent
                    (JSON_stringify (input_of (fetcher_props type method window)))
       ∈ queryParts (fetcher_props type method window))
  ∧ (method = Hmutation →
     getBody JSON_stringify (fetcher_props type method window)
     = Some (JSON_stringify (input_of (fetcher_props type method window)))).
Proof.
  split_and!.
  - unfold queryParts, HttpRequest.queryParts. simpl.
    destruct (negb _), (_ && _); simpl; rewrite !elem_of_cons; auto 10.
  - done.
  - unfold input_of. simpl. by rewrite map_map.
  - intros ->. unfold queryParts, HttpRequest.queryParts. simpl.
    destruct (negb _); simpl; rewrite !elem_of_cons; auto 10.
  - by intros ->.
Qed.

End FetcherMore.

Section LinkMore.
Import HttpRequest HttpBatchLink.

Variable transformRPCResponse : value → outcome OperationResult.
Variable prev : OperationResult → option exn.

#[local] Abbreviation step := (HttpBatchLink.step transformRPCResponse prev).
#[local] Abbreviation run := (HttpBatchLink.run transformRPCResponse prev).
#[local] Abbreviation first_result :=
  (HttpBatchLink.first_result transformRPCResponse).

Lemma step_first (st : LinkState) (ev : Event) :
  isDone st = false →
  isDone (step st ev) = true
  ∧ delivered (step st ev) = delivered st ++ [first_result ev].
Proof.
  intros Hnot. destruct ev as [|[envelope|cause]]; simpl;
    unfold on_destroy, on_then, on_catch; try destruct (transformRPCResponse _);
    unfold prevOnce; rewrite ?Hnot; simpl;
    repeat (destruct (prev _); simpl); done.
Qed.

Lemma run_delivered_done (st : LinkState) (events : list Event) :
  isDone st = true → delivered (run st events) = delivered st.
Proof.
  revert st. induction events as [|ev events IH]; intros st Hdone; [done|].
  simpl. destruct (step_done transformRPCResponse prev st ev Hdone) as [Hd <-].
  by apply IH.
Qed.

(** X7.  Once a call has been loaded, the first event decides what is
    delivered: the abort error if it is the teardown, the client error of
    the cause if the promise rejects or the transformer throws, the
    transformed response otherwise.  [prev] gets exactly that, whatever
    follows. *)
Theorem first_event_decides_delivery (op : Operation) (st : LinkState)
  (ev : Event) (more : list Event) :
  link op = Returned st →
  delivered (run st (ev :: more)) = [first_result ev].
Proof.
  intros Hlink.
  assert (isDone st = false ∧ delivered st = []) as [Hnot Hnil].
  { revert Hlink. unfold link. destruct (_ || _); [done|].
    destruct (loaders _ _); [|done]. by intros [= <-]. }
  destruct (step_first st ev Hnot) as [Hdone Hfirst].
  change (run st (ev :: more)) with (run (step st ev) more).
  rewrite run_delivered_done by done. by rewrite Hfirst, Hnil.
Qed.

(** X8.  The loader's [cancel] is called at most once per teardown, and,
    when [prev] does not throw, exactly once per teardown, also for a
    teardown that comes after the result was delivered. *)
Theorem cancel_once_per_teardown (st : LinkState) (events : list Event) :
  cancelled (run st events) ≤ cancelled st + teardowns events
  ∧ ((∀ result, prev result = None) →
     cancelled (run st events) = cancelled st + teardowns events).
Proof.
  split.
  - revert st. induction events as [|ev events IH]; intros st; simpl; [lia|].
    etransitivity; [apply IH|].
    destruct ev as [|[envelope|cause]]; simpl;
      unfold on_destroy, on_then, on_catch; try destruct (transformRPCResponse _);
      unfold prevOnce; destruct (isDone st); simpl;
      repeat (destruct (prev _); simpl); lia.
  - intros Hprev. revert st.
    induction events as [|ev events IH]; intros st; simpl; [lia|].
    rewrite IH.
    destruct ev as [|[envelope|cause]]; simpl;
      unfold on_destroy, on_then, on_catch; try destruct (transformRPCResponse _);
      unfold prevOnce; destruct (isDone st); simpl;
      rewrite ?Hprev; simpl; rewrite ?Hprev; simpl; lia.
Qed.

(** X9.  What happens to an exception of [prev]: thrown while a fulfilled
    response is delivered, it is caught by the chained [catch], whose own
    delivery is then a no-op, and never escapes; thrown while a rejection
    is delivered, it escapes; thrown while the teardown delivers the abort
    error, it escapes and [cancel] is not called. *)
Theorem prev_exception_paths (st : LinkState) :
  (∀ envelope result,
     transformRPCResponse envelope = Returned result →
     uncaught (step st (Settle (Returned envelope))) = uncaught st)
  ∧ (∀ cause e,
       isDone st = false → prev (ClientError cause None) = Some e →
       uncaught (step st (Settle (Thrown cause))) = uncaught st ++ [e])
  ∧ (∀ e,
       isDone st = false →
       prev (ClientError TRPCAbortError (Some true)) = Some e →
       uncaught (step st Destroy) = uncaught st ++ [e]
       ∧ cancelled (step st Destroy) = cancelled st).
Proof.
  split; [|split].
  - intros envelope result Htr. simpl. unfold on_then, on_catch, prevOnce.
    rewrite Htr. destruct (isDone st); simpl; [done|].
    destruct (prev result); done.
  - intros cause e Hnot Hprev. simpl. unfold on_catch, prevOnce.
    by rewrite Hnot, Hprev.
  - intros e Hnot Hprev. simpl. unfold on_destroy, prevOnce.
    by rewrite Hnot, Hprev.
Qed.

End LinkMore.

(** ** The socket handler, continued *)

Section WssHandlerMore.
Import WssHandler.

Variable JSON_parse : string → outcome value.
Variable JSON_stringify : value → string.
Variable Number_toString : number → string.
Variable input_deserialize : value → outcome value.
Variable output_serialize : value → value.
Variable getErrorShape : exn → string → option string → value → value.
Variable getErrorFromUnknown : exn → exn.

#[local] Abbreviation parseMessage := (WssHandler.parseMessage JSON_parse).
#[local] Abbreviation response := (WssHandler.response output_serialize).
#[local] Abbreviation respond :=
  (WssHandler.respond JSON_stringify output_serialize).
#[local] Abbreviation deserialized := (WssHandler.deserialized input_deserialize).
#[local] Abbreviation on_message :=
  (WssHandler.on_message JSON_parse input_deserialize).
#[local] Abbreviation on_data :=
  (WssHandler.on_data JSON_stringify output_serialize).
#[local] Abbreviation on_error :=
  (WssHandler.on_error JSON_stringify output_serialize getErrorShape
     getErrorFromUnknown).
#[local] Abbreviation step :=
  (WssHandler.step JSON_parse JSON_stringify Number_toString input_deserialize
     output_serialize getErrorShape getErrorFromUnknown).
#[local] Abbreviation run :=
  (WssHandler.run JSON_parse JSON_stringify Number_toString input_deserialize
     output_serialize getErrorShape getErrorFromUnknown).

(** *** The parser *)

(** X10.  The checks of the parser come in a fixed order, each with its
    own error: the message must be a string ([Invalid string]), the text
    must decode (the error of [JSON.parse]), to an object ([Not an
    object]), with a number other than NaN as [id] ([Invalid requestId],
    also for a stop message); then, unless the method is [stop], the
    method must be a procedure type ([Invalid procedure type]), [params]
    an object ([Not an object]) and its [path] a string ([Invalid
    string]). *)
Theorem parseMessage_errors (message : value) :
  ((∀ s, message ≠ VStr s) →
   parseMessage message = Thrown (Error "Invalid string"))
  ∧ ∀ s, message = VStr s →
    (∀ e, JSON_parse s = Thrown e → parseMessage message = Thrown e)
    ∧ ∀ obj, JSON_parse s = Returned obj →
      ((∀ fields, obj ≠ VObj fields) →
       parseMessage message = Thrown (Error "Not an object"))
      ∧ ∀ fields, obj = VObj fields →
        ((∀ id, lookup_key "id" fields = Some (VNum id) → id = NaN) →
         parseMessage message = Thrown (Error "Invalid requestId"))
        ∧ ∀ id, lookup_key "id" fields = Some (VNum id) → id ≠ NaN →
          lookup_key "method" fields ≠ Some (VStr "stop") →
          ((∀ type, lookup_key "method" fields
                    ≠ Some (VStr (procedure_name type))) →
           parseMessage message = Thrown (Error "Invalid procedure type"))
          ∧ ∀ type,
            lookup_key "method" fields = Some (VStr (procedure_name type)) →
            ((∀ params, lookup_key "params" fields ≠ Some (VObj params)) →
             parseMessage message = Thrown (Error "Not an object"))
            ∧ ∀ params, lookup_key "params" fields = Some (VObj params) →
              (∀ path, lookup_key "path" params ≠ Some (VStr path)) →
              parseMessage message = Thrown (Error "Invalid string").
Proof.
  unfold parseMessage, WssHandler.parseMessage. split.
  { intros Hnot. destruct message; try done. by destruct (Hnot s). }
  intros s ->. simpl. split; [by intros e ->|].
  intros obj ->. simpl. split.
  { intros Hnot. unfold assertIsObject.
    destruct obj as [| |[]|[| |]| [|]| |]; simpl; try done;
      try (by case_bool_decide). by destruct (Hnot fields). }
  intros fields ->. cbn [assertIsObject typeof Array_isArray falsy]. simpl.
  split.
  { intros Hid. destruct (lookup_key "id" fields) as [[| | |n| | |]|] eqn:Hl;
      simpl; try done.
    rewrite (Hid n eq_refl). done. }
  intros id Hid Hnan Hstop. rewrite Hid. simpl.
  destruct id as [|neg|q]; [done|..]; simpl.
  all: destruct (is_string _ "stop") eqn:Hs;
    [apply is_string_true in Hs;
     destruct (lookup_key "method" fields) as [m|]; simpl in Hs; congruence|].
  all: split;
    [intros Htype;
     destruct (assertIsProcedureType _) as [t|] eqn:Ht;
       [apply assertIsProcedureType_Returned in Ht;
        destruct (lookup_key "method" fields) as [m|] eqn:Hm; simpl in Ht;
          [subst m; by destruct (Htype t)|by destruct t]
       |revert Ht; unfold assertIsProcedureType;
        repeat (destruct (is_string _ _); [done|]); by intros [= <-]]|].
  all: intros type Hm; rewrite Hm; simpl;
    assert (assertIsProcedureType (VStr (procedure_name type)) = Returned type)
      as -> by (by apply assertIsProcedureType_Returned);
    cbn [mbind outcome_bind]; split;
    [intros Hparams;
     destruct (lookup_key "params" fields) as [[| |[]|[| |]| [|]| |]|];
       simpl; try done; by destruct (Hparams fields0)|].
  all: intros params Hp Hpath; rewrite Hp; simpl;
    destruct (lookup_key "path" params) as [[| | | | p| |]|]; simpl; try done;
    by destruct (Hpath p).
Qed.

(** X11.  The parser reads only [id], [method] and [params] of the decoded
    object (and [input] and [path] of [params]): two texts whose objects
    agree on these three fields parse alike, whatever else they carry, the
    [jsonrpc] field included. *)
Theorem parseMessage_reads_three_fields (s1 s2 : string)
  (fields1 fields2 : list (string * value)) :
  JSON_parse s1 = Returned (VObj fields1) →
  JSON_parse s2 = Returned (VObj fields2) →
  lookup_key "id" fields1 = lookup_key "id" fields2 →
  lookup_key "method" fields1 = lookup_key "method" fields2 →
  lookup_key "params" fields1 = lookup_key "params" fields2 →
  parseMessage (VStr s1) = parseMessage (VStr s2).
Proof.
  intros H1 H2 Hid Hm Hp. unfold parseMessage, WssHandler.parseMessage. simpl.
  rewrite H1, H2. simpl. by rewrite Hid, Hm, Hp.
Qed.

(** *** One message *)

(** X12.  A request without [input] is called with [undefined] as input
    and the deserializer is not consulted; a request whose input the
    deserializer rejects is not called at all: the handler ends with that
    error, and nothing is sent. *)
Theorem request_input_deserialized (message : value) (type : ProcedureType)
  (id : number) (input : value) (path : string) (st : Conn) :
  parseMessage message = Returned (CallInfo type id input path) →
  (input = VUndefined →
   on_message message st
   = await (AwaitProcedure {| call_id := id; call_type := type;
                              call_path := path; call_input := VUndefined |})
       (emit (Called {| call_id := id; call_type := type;
                        call_path := path; call_input := VUndefined |})
          (add_close_listener st)))
  ∧ (∀ e, input ≠ VUndefined → input_deserialize input = Thrown e →
       on_message message st = emit (Rejected e) (add_close_listener st)).
Proof.
  intros Hparse. unfold on_message, WssHandler.on_message.
  fold parseMessage. rewrite Hparse. simpl. split.
  - by intros ->.
  - intros e Hdef Hthrown. apply is_undefined_false in Hdef.
    by rewrite Hdef, Hthrown.
Qed.

Lemma lookup_app_length {A} (l : list A) (a : A) : (l ++ [a]) !! length l = Some a.
Proof. by rewrite lookup_app_r, Nat.sub_diag by lia. Qed.

Lemma delete_app_length {A} (l : list A) (a : A) : delete (length l) (l ++ [a]) = l.
Proof.
  induction l as [|x l IH]; simpl; [done|]. by rewrite IH.
Qed.


(** *** Subscriptions *)

Lemma notify_emit (sub : Sub) (f : Call → Conn → Conn) (g : Call → Effect)
  (st : Conn) :
  (∀ c st', f c st' = emit (g c) st') →
  notify sub f st
  = foldl (fun st' e => emit e st') st (map g (listening sub (listeners st))).
Proof.
  intros Hf. unfold notify, listening.
  generalize (listeners st) as ls. intros ls. revert st.
  induction ls as [|[sub' c] ls IH]; intros st; simpl; [done|].
  case_decide; simpl; [by rewrite Hf, IH|by rewrite IH].
Qed.

Lemma emit_all_eq (es : list Effect) (st : Conn) :
  foldl (fun st' e => emit e st') st es
  = {| clientSubscriptions := clientSubscriptions st;
       closeListeners := closeListeners st;
       readyState := readyState st; listeners := listeners st;
       suspended := suspended st; effects := effects st ++ es |}.
Proof.
  revert st. induction es as [|e es IH]; intros st; simpl.
  - rewrite app_nil_r. by destruct st.
  - rewrite IH. simpl. by rewrite <- app_assoc.
Qed.


(** X15.  When a procedure call returns a subscription while the socket
    is not open, the subscription is destroyed and dropped: it is not
    entered, gets no listener, is not started, and nothing is sent. *)
Theorem late_subscription_dropped (st : Conn) (k : nat) (c : Call) (sub : Sub) :
  suspended st !! k = Some (AwaitProcedure c) →
  readyState st ≠ OPEN →
  let st' := step st (Settled k (Returned (Subscription sub))) in
  effects st' = effects st ++ [Destroyed sub]
  ∧ clientSubscriptions st' = clientSubscriptions st
  ∧ listeners st' = listeners st
  ∧ suspended st' = delete k (suspended st).
Proof.
  intros Hk Hclosed. simpl. rewrite Hk.
  unfold WssHandler.on_procedure. simpl.
  rewrite bool_decide_eq_false_2 by done. done.
Qed.



(** *** Invariants of a connection *)

Lemma on_close_fields (st : Conn) :
  listeners (on_close st) = listeners st
  ∧ closeListeners (on_close st) = closeListeners st
  ∧ (clientSubscriptions (on_close st) = clientSubscriptions st
     ∨ clientSubscriptions (on_close st) = []).
Proof.
  unfold on_close. destruct (closeListeners st) as [|n] eqn:Hn.
  - simpl. auto.
  - rewrite close_listeners_eq, close_listener_eq. simpl. auto.
Qed.

(** How one event changes the map and the listeners: it leaves the
    listeners and keeps the map, deletes one id or clears it; or it enters
    a subscription under a free id together with its listener. *)
Lemma step_map_listeners (st : Conn) (ev : Event) :
  (listeners (step st ev) = listeners st
   ∧ (clientSubscriptions (step st ev) = clientSubscriptions st
      ∨ (∃ id, clientSubscriptions (step st ev)
               = delete_key id (clientSubscriptions st))
      ∨ clientSubscriptions (step st ev) = []))
  ∨ (∃ c sub,
       lookup_key (call_id c) (clientSubscriptions st) = None
       ∧ clientSubscriptions (step st ev)
         = set_key (call_id c) sub (clientSubscriptions st)
       ∧ listeners (step st ev) = listeners st ++ [(sub, c)]).
Proof.
  destruct ev as [message|k o|sub data|sub error| |].
  - left. simpl. unfold WssHandler.on_message.
    destruct (WssHandler.parseMessage JSON_parse message)
      as [[id|type id input path]|e]; simpl.
    + destruct (lookup_key id (clientSubscriptions st)); simpl; eauto.
    + destruct (if negb _ then _ else _); simpl; eauto.
    + eauto.
  - simpl. destruct (suspended st !! k) as [[c|c sub]|]; [| |by left; eauto].
    + unfold WssHandler.on_procedure. destruct o as [[result|sub]|e]; simpl;
        [by left; eauto| |by left; eauto].
      destruct (bool_decide (readyState st = OPEN)); simpl; [|by left; eauto].
      destruct (lookup_key (call_id c) (clientSubscriptions st)) eqn:Hl; simpl;
        [by left; eauto|].
      right. exists c, sub. done.
    + left. destruct o; simpl; eauto.
  - left. simpl.
    rewrite (notify_emit sub _
               (fun c => Sent (JSON_stringify
                                 (response (call_id c) (ok_envelope data)))))
      by done.
    rewrite emit_all_eq. simpl. eauto.
  - left. simpl.
    rewrite (notify_emit sub _
               (fun c =>
                  Sent (JSON_stringify
                          (response (call_id c)
                             (error_envelope
                                (getErrorShape (getErrorFromUnknown error)
                                   "subscription" (Some (call_path c))
                                   (call_input c)))))))
      by done.
    rewrite emit_all_eq. simpl. eauto.
  - left. simpl. case_decide; simpl; eauto.
  - left. destruct (on_close_fields st) as (Hl & _ & [Hs|Hs]); simpl; eauto.
Qed.

Lemma lookup_delete_key_Some {A} (id k : number) (m : list (number * A)) (a : A) :
  lookup_key id (delete_key k m) = Some a → lookup_key id m = Some a.
Proof.
  destruct (decide (id = k)) as [->|Hne].
  - by rewrite lookup_delete_key_eq.
  - by rewrite lookup_delete_key_ne.
Qed.

(** X18.  On a connection, whatever events it has seen, every entry of
    the map belongs to a subscription that has a listener registered for
    a call with the id of the entry, so that the events of a registered
    subscription are answered under the id it is registered under. *)
Theorem registered_subscription_listens (events : list Event) (id : number)
  (sub : Sub) :
  lookup_key id (clientSubscriptions (run connected events)) = Some sub →
  ∃ c, (sub, c) ∈ listeners (run connected events) ∧ call_id c = id.
Proof.
  assert (Hstep : ∀ st ev,
    (∀ id sub, lookup_key id (clientSubscriptions st) = Some sub →
               ∃ c, (sub, c) ∈ listeners st ∧ call_id c = id) →
    ∀ id sub, lookup_key id (clientSubscriptions (step st ev)) = Some sub →
              ∃ c, (sub, c) ∈ listeners (step st ev) ∧ call_id c = id).
  { intros st ev Hinv id' sub'.
    destruct (step_map_listeners st ev)
      as [[-> [->|[[k ->]| ->]]]|(c & s & Hfree & -> & ->)].
    - apply Hinv.
    - intros Hl. apply lookup_delete_key_Some in Hl. by apply Hinv.
    - done.
    - destruct (decide (id' = call_id c)) as [->|Hne].
      + rewrite lookup_set_key_eq. intros [= <-]. exists c.
        split; [|done]. apply elem_of_app. right. by apply list_elem_of_singleton.
      + rewrite lookup_set_key_ne by done. intros Hl.
        destruct (Hinv _ _ Hl) as (c' & Hin & Hid). exists c'.
        split; [|done]. apply elem_of_app. by left. }
  assert (Hrun : ∀ events st,
    (∀ id sub, lookup_key id (clientSubscriptions st) = Some sub →
               ∃ c, (sub, c) ∈ listeners st ∧ call_id c = id) →
    ∀ id sub, lookup_key id (clientSubscriptions (run st events)) = Some sub →
              ∃ c, (sub, c) ∈ listeners (run st events) ∧ call_id c = id).
  { clear events id sub.
    induction events as [|ev events IH]; intros st Hinv; [done|].
    simpl. by apply IH, Hstep. }
  apply Hrun. done.
Qed.

(** X19.  No event puts another subscription in the place of a registered
    one: after an event an id that had an entry has the same subscription
    or none, since a subscription is only entered under an id that has no
    entry. *)
Theorem registered_subscription_not_replaced (st : Conn) (ev : Event)
  (id : number) (sub : Sub) :
  lookup_key id (clientSubscriptions st) = Some sub →
  lookup_key id (clientSubscriptions (step st ev)) = Some sub
  ∨ lookup_key id (clientSubscriptions (step st ev)) = None.
Proof.
  intros Hsub.
  destruct (step_map_listeners st ev)
    as [[_ [->|[[k ->]| ->]]]|(c & new & Hfree & -> & _)].
  - by left.
  - destruct (decide (id = k)) as [->|Hne].
    + right. apply lookup_delete_key_eq.
    + left. by rewrite lookup_delete_key_ne.
  - by right.
  - left. rewrite lookup_set_key_ne; [done|]. intros ->. congruence.
Qed.

Lemma step_closeListeners (st : Conn) (ev : Event) :
  closeListeners (step st ev) = closeListeners st + messages [ev].
Proof.
  destruct ev as [message|k o|sub data|sub error| |]; simpl.
  - destruct (on_message_fields JSON_parse input_deserialize message st)
      as [-> _]. lia.
  - destruct (suspended st !! k) as [[c|c sub]|]; [| |lia].
    + unfold WssHandler.on_procedure. destruct o as [[result|sub]|e]; simpl;
        try lia.
      destruct (bool_decide _); simpl; [|lia].
      destruct (lookup_key _ _); simpl; lia.
    + destruct o; simpl; lia.
  - pose proof (notify_core sub (fun c => on_data c data) st ltac:(done))
      as [= _ Hn _ _]. lia.
  - pose proof (notify_core sub (fun c => on_error c error) st ltac:(done))
      as [= _ Hn _ _]. lia.
  - case_decide; simpl; lia.
  - destruct (on_close_fields st) as (_ & -> & _). lia.
Qed.

(** X20.  Every message registers one more close listener on the socket,
    valid or not, and no event removes one: after any events a connection
    has as many close listeners more as it has received messages. *)
Theorem close_listener_per_message (st : Conn) (events : list Event) :
  closeListeners (run st events) = closeListeners st + messages events.
Proof.
  revert st. induction events as [|ev events IH]; intros st; simpl; [lia|].
  rewrite IH, step_closeListeners. destruct ev; simpl; lia.
Qed.

(** How one event changes the map and the effects: it keeps the map and
    starts nothing; or it deletes an id after destroying the subscription
    found under it; or it enters a subscription under a free id and starts
    it; or it destroys the subscription of every entry and clears the
    map. *)
Lemma step_map_effects (st : Conn) (ev : Event) :
  (clientSubscriptions (step st ev) = clientSubscriptions st
   ∧ ∃ es, effects (step st ev) = effects st ++ es ∧ ∀ s, Started s ∉ es)
  ∨ (∃ id,
       clientSubscriptions (step st ev) = delete_key id (clientSubscriptions st)
       ∧ effects (step st ev)
         = effects st ++
           match lookup_key id (clientSubscriptions st) with
           | Some sub => [Destroyed sub]
           | None => []
           end)
  ∨ (∃ id sub,
       lookup_key id (clientSubscriptions st) = None
       ∧ clientSubscriptions (step st ev) = set_key id sub (clientSubscriptions st)
       ∧ effects (step st ev) = effects st ++ [Started sub])
  ∨ (clientSubscriptions (step st ev) = []
     ∧ effects (step st ev)
       = effects st ++ map Destroyed (map snd (clientSubscriptions st))).
Proof.
  assert (Hone : ∀ e, (∀ s, e ≠ Started s) → ∀ s, Started s ∉ [e]).
  { intros e He s Hin. apply list_elem_of_singleton in Hin. by destruct (He s). }
  assert (Hsent : ∀ (g : Call → string) cs s,
            Started s ∉ map (fun c => Sent (g c)) cs).
  { intros g cs s Hin. apply list_elem_of_fmap in Hin as (c & Heq & _). done. }
  destruct ev as [message|k o|sub data|sub error| |].
  - simpl. unfold WssHandler.on_message.
    destruct (WssHandler.parseMessage JSON_parse message)
      as [[id|type id input path]|e]; simpl.
    + right. left. exists id.
      destruct (lookup_key id (clientSubscriptions st)); simpl;
        rewrite ?app_nil_r; done.
    + left. destruct (if negb _ then _ else _); simpl;
        (split; [done|]); eexists; (split; [done|]); by apply Hone.
    + left. split; [done|]. eexists. split; [done|]. by apply Hone.
  - simpl. destruct (suspended st !! k) as [[c|c sub]|].
    + unfold WssHandler.on_procedure. destruct o as [[result|sub]|e]; simpl.
      * left. split; [done|]. eexists. split; [done|]. by apply Hone.
      * destruct (bool_decide (readyState st = OPEN)); simpl.
        -- destruct (lookup_key (call_id c) (clientSubscriptions st)) eqn:Hl;
             simpl.
           ++ left. split; [done|]. eexists.
              split; [by rewrite <- app_assoc|].
              intros s' Hin. apply elem_of_cons in Hin as [?|Hin]; [done|].
              by apply list_elem_of_singleton in Hin.
           ++ right. right. left. exists (call_id c), sub. done.
        -- left. split; [done|]. eexists. split; [done|]. by apply Hone.
      * left. split; [done|]. eexists. split; [done|]. by apply Hone.
    + left. destruct o; simpl; (split; [done|]).
      * exists []. split; [by rewrite app_nil_r|]. intros s. apply not_elem_of_nil.
      * eexists. split; [done|]. by apply Hone.
    + left. split; [done|]. exists [].
      split; [by rewrite app_nil_r|]. intros s. apply not_elem_of_nil.
  - left. simpl.
    rewrite (notify_emit sub _
               (fun c => Sent (JSON_stringify
                                 (response (call_id c) (ok_envelope data)))))
      by done.
    rewrite emit_all_eq. simpl. split; [done|]. eexists. split; [done|].
    apply Hsent.
  - left. simpl.
    rewrite (notify_emit sub _
               (fun c =>
                  Sent (JSON_stringify
                          (response (call_id c)
                             (error_envelope
                                (getErrorShape (getErrorFromUnknown error)
                                   "subscription" (Some (call_path c))
                                   (call_input c)))))))
      by done.
    rewrite emit_all_eq. simpl. split; [done|]. eexists. split; [done|].
    apply Hsent.
  - left. simpl. case_decide; simpl; (split; [done|]); exists [];
      (split; [by rewrite app_nil_r|]); intros s; apply not_elem_of_nil.
  - simpl. unfold on_close. destruct (closeListeners st) as [|n].
    + left. simpl. split; [done|]. exists [].
      split; [by rewrite app_nil_r|]. intros s. apply not_elem_of_nil.
    + right. right. right.
      rewrite close_listeners_eq, close_listener_eq. done.
Qed.

Lemma lookup_key_values {A} (id : number) (m : list (number * A)) (a : A) :
  lookup_key id m = Some a → a ∈ map snd m.
Proof.
  induction m as [|[id' a'] m IH]; simpl; [done|].
  case_decide.
  - intros [= ->]. apply elem_of_cons. by left.
  - intros Hl. apply elem_of_cons. right. by apply IH.
Qed.

(** X21.  No subscription is left running when a connection has closed:
    on a connection whose socket is closed, whatever events it has seen,
    every subscription that was started has been destroyed. *)
Theorem started_subscriptions_destroyed (events : list Event) (sub : Sub) :
  readyState (run connected events) = CLOSED →
  Started sub ∈ effects (run connected events) →
  Destroyed sub ∈ effects (run connected events).
Proof.
  assert (Hstep : ∀ st ev,
    (∀ s, Started s ∈ effects st →
          (∃ id, lookup_key id (clientSubscriptions st) = Some s)
          ∨ Destroyed s ∈ effects st) →
    ∀ s, Started s ∈ effects (step st ev) →
         (∃ id, lookup_key id (clientSubscriptions (step st ev)) = Some s)
         ∨ Destroyed s ∈ effects (step st ev)).
  { intros st ev Hinv s.
    destruct (step_map_effects st ev)
      as [[-> (es & -> & Hes)]|[(id & -> & ->)|[(id & new & Hfree & -> & ->)
         |[-> ->]]]];
      rewrite !elem_of_app.
    - intros [Hs|Hs]; [|by destruct (Hes s)].
      destruct (Hinv s Hs) as [?|?]; auto.
    - intros [Hs|Hs].
      + destruct (Hinv s Hs) as [[id' Hl]|?]; [|by auto].
        destruct (decide (id' = id)) as [->|Hne].
        * right. right. rewrite Hl. by apply list_elem_of_singleton.
        * left. exists id'. by rewrite lookup_delete_key_ne.
      + destruct (lookup_key id _); [|by apply elem_of_nil in Hs].
        by apply list_elem_of_singleton in Hs.
    - intros [Hs|Hs].
      + destruct (Hinv s Hs) as [[id' Hl]|?]; [|by auto].
        left. exists id'. rewrite lookup_set_key_ne; [done|].
        intros ->. congruence.
      + apply list_elem_of_singleton in Hs as [= ->].
        left. exists id. apply lookup_set_key_eq.
    - intros [Hs|Hs].
      + destruct (Hinv s Hs) as [[id' Hl]|?]; [|by auto].
        right. right. apply list_elem_of_fmap. exists s. split; [done|].
        by apply lookup_key_values in Hl.
      + apply list_elem_of_fmap in Hs as (? & ? & _). done. }
  assert (Hrun : ∀ events st,
    (∀ s, Started s ∈ effects st →
          (∃ id, lookup_key id (clientSubscriptions st) = Some s)
          ∨ Destroyed s ∈ effects st) →
    ∀ s, Started s ∈ effects (run st events) →
         (∃ id, lookup_key id (clientSubscriptions (run st events)) = Some s)
         ∨ Destroyed s ∈ effects (run st events)).
  { clear events sub.
    induction events as [|ev events IH]; intros st Hinv; [done|].
    simpl. by apply IH, Hstep. }
  intros Hclosed Hstarted.
  destruct (Hrun events connected) with (s := sub) as [[id Hl]|?]; try done.
  - intros s Hs. by apply elem_of_nil in Hs.
  - destruct (run_invariants JSON_parse JSON_stringify Number_toString
                input_deserialize output_serialize getErrorShape
                getErrorFromUnknown connected events connected_invariants)
      as [_ Hempty].
    fold run in Hempty. by rewrite (Hempty Hclosed) in Hl.
Qed.

End WssHandlerMore.

(** ** Further instances on sample data *)

Lemma cancel_idempotent_witness :
  HttpRequest.rt_AbortController Samples.abortable_runtime = true
  ∧ HttpRequest.new_ac Samples.abortable_runtime = Some false
  ∧ Nat.iter 3 HttpRequest.cancel (HttpRequest.new_ac Samples.abortable_runtime)
    = Some true
  ∧ Nat.iter 3 HttpRequest.cancel (HttpRequest.new_ac Samples.abortable_runtime)
    = HttpRequest.cancel (HttpRequest.new_ac Samples.abortable_runtime).
Proof.
  split; [reflexivity|].
  apply (cancel_idempotent Samples.abortable_runtime 2). reflexivity.
Defined.

Lemma first_event_decides_delivery_witness :
  HttpBatchLink.link Samples.get_user
  = Returned {| HttpBatchLink.loaded :=
                  ((HttpRequest.Hquery, HttpRequest.Hquery), Samples.get_user);
                HttpBatchLink.isDone := false; HttpBatchLink.delivered := [];
                HttpBatchLink.cancelled := 0; HttpBatchLink.uncaught := [] |}
  ∧ ∀ transformRPCResponse prev cause,
      HttpBatchLink.delivered
        (HttpBatchLink.run transformRPCResponse prev
           {| HttpBatchLink.loaded :=
                ((HttpRequest.Hquery, HttpRequest.Hquery), Samples.get_user);
              HttpBatchLink.isDone := false; HttpBatchLink.delivered := [];
              HttpBatchLink.cancelled := 0; HttpBatchLink.uncaught := [] |}
           [HttpBatchLink.Settle (Thrown cause); HttpBatchLink.Destroy])
      = [HttpBatchLink.ClientError cause None].
Proof.
  split; [reflexivity|].
  intros transformRPCResponse prev cause.
  apply (first_event_decides_delivery transformRPCResponse prev
           Samples.get_user _ (HttpBatchLink.Settle (Thrown cause))
           [HttpBatchLink.Destroy] eq_refl).
Defined.

Lemma parseMessage_reads_three_fields_witness :
  WssHandler.parseMessage Samples.parse_versions (VStr "stop 7, version 1")
  = WssHandler.parseMessage Samples.parse_versions (VStr "stop 7, version 2").
Proof.
  apply (parseMessage_reads_three_fields Samples.parse_versions
           "stop 7, version 1" "stop 7, version 2"
           [("jsonrpc", VStr "1.0"); ("id", VNum (int 7)); ("method", VStr "stop")]
           [("id", VNum (int 7)); ("method", VStr "stop"); ("jsonrpc", VStr "2.0")]);
    reflexivity.
Defined.

Lemma request_input_deserialized_witness :
  WssHandler.parseMessage Samples.parse (VStr "subscribe 7")
  = Returned (WssHandler.CallInfo subscription (int 7) VNull "posts.onAdd")
  ∧ WssHandler.on_message Samples.parse (fun _ => Thrown (Error "bad input"))
      (VStr "subscribe 7") WssHandler.connected
    = WssHandler.emit (WssHandler.Rejected (Error "bad input"))
        (WssHandler.add_close_listener WssHandler.connected).
Proof.
  split; [reflexivity|].
  destruct (request_input_deserialized Samples.parse
              (fun _ => Thrown (Error "bad input"))
              (VStr "subscribe 7") subscription (int 7) VNull "posts.onAdd"
              WssHandler.connected eq_refl) as [_ Hrejected].
  apply (Hrejected (Error "bad input")); [discriminate|reflexivity].
Defined.



Lemma late_subscription_dropped_witness :
  WssHandler.suspended Samples.subscribing_while_closing !! 0
  = Some (WssHandler.AwaitProcedure Samples.subscribe7)
  ∧ WssHandler.readyState Samples.subscribing_while_closing ≠ WssHandler.OPEN
  ∧ WssHandler.effects
      (Samples.server_step Samples.subscribing_while_closing
         (WssHandler.Settled 0 (Returned (WssHandler.Subscription 1))))
    = [WssHandler.Called Samples.subscribe7; WssHandler.Destroyed 1]
  ∧ WssHandler.clientSubscriptions
      (Samples.server_step Samples.subscribing_while_closing
         (WssHandler.Settled 0 (Returned (WssHandler.Subscription 1))))
    = [].
Proof.
  split; [reflexivity|]. split; [discriminate|].
  destruct (late_subscription_dropped Samples.parse Samples.stringify
              Samples.number_string Returned (fun v => v) Samples.error_shape
              (fun e => e) Samples.subscribing_while_closing 0
              Samples.subscribe7 1 eq_refl ltac:(discriminate))
    as (Heffects & Hsubs & _).
  split; [exact Heffects|exact Hsubs].
Defined.


Lemma registered_subscription_listens_witness :
  lookup_key (int 7) (WssHandler.clientSubscriptions Samples.subscribed) = Some 1
  ∧ ∃ c, (1, c) ∈ WssHandler.listeners Samples.subscribed
         ∧ WssHandler.call_id c = int 7.
Proof.
  split; [reflexivity|].
  apply (registered_subscription_listens Samples.parse Samples.stringify
           Samples.number_string Returned (fun v => v) Samples.error_shape
           (fun e => e)
           [WssHandler.Message (VStr "subscribe 7");
            WssHandler.Settled 0 (Returned (WssHandler.Subscription 1))]
           (int 7) 1).
  reflexivity.
Defined.

Lemma started_subscriptions_destroyed_witness :
  WssHandler.readyState
    (Samples.server_run Samples.subscribed [WssHandler.Close])
  = WssHandler.CLOSED
  ∧ WssHandler.Started 1
    ∈ WssHandler.effects
        (Samples.server_run Samples.subscribed [WssHandler.Close])
  ∧ WssHandler.Destroyed 1
    ∈ WssHandler.effects
        (Samples.server_run Samples.subscribed [WssHandler.Close]).
Proof.
  split; [reflexivity|].
  assert (WssHandler.Started 1
          ∈ WssHandler.effects
              (Samples.server_run Samples.subscribed [WssHandler.Close]))
    as Hstarted.
  { apply elem_of_cons. right. apply elem_of_cons. left. reflexivity. }
  split; [exact Hstarted|].
  apply (started_subscriptions_destroyed Samples.parse Samples.stringify
           Samples.number_string Returned (fun v => v) Samples.error_shape
           (fun e => e)
           [WssHandler.Message (VStr "subscribe 7");
            WssHandler.Settled 0 (Returned (WssHandler.Subscription 1));
            WssHandler.Close] 1 eq_refl Hstarted).
Defined.


Lemma registered_subscription_not_replaced_witness :
  lookup_key (int 7) (WssHandler.clientSubscriptions Samples.resubscribing)
  = Some 1
  ∧ (lookup_key (int 7)
       (WssHandler.clientSubscriptions
          (Samples.server_step Samples.resubscribing
             (WssHandler.Settled 1 (Returned (WssHandler.Subscription 2)))))
     = Some 1
     ∨ lookup_key (int 7)
         (WssHandler.clientSubscriptions
            (Samples.server_step Samples.resubscribing
               (WssHandler.Settled 1 (Returned (WssHandler.Subscription 2)))))
       = None).
Proof.
  split; [reflexivity|].
  apply (registered_subscription_not_replaced Samples.parse Samples.stringify
           Samples.number_string Returned (fun v => v) Samples.error_shape
           (fun e => e) Samples.resubscribing
           (WssHandler.Settled 1 (Returned (WssHandler.Subscription 2)))
           (int 7) 1).
  reflexivity.
Defined.
